(** * puppeteer-recorder: the event-to-statement code generator

    A shallow embedding of [src/code-generator/CodeGenerator.js], and of
    the pure helpers of [src/content-scripts/index.js], with the
    properties of the generated script that the specification states and
    further properties read off the code.

    The generator is a JavaScript class.  Its instance fields become a
    record that every method takes and returns; the module-level object
    [defaults], which the constructor mutates and every instance aliases
    as [this._options], becomes an explicit store; the only exception the
    code can raise on event data, a [TypeError] from reading a property of
    [undefined] or [null], becomes an error result. *)

From Equations Require Import Equations.
From stdpp Require Import base strings pretty list gmap fin_maps.

Local Open Scope Z_scope.

(** ** JavaScript values *)

(** The values an event record or an options object can carry once it has
    crossed the extension's message channel: absent fields read as
    [undefined]; numbers are the integers that JavaScript prints in plain
    decimal notation (key codes, frame ids, viewport sizes). *)
#[warnings="-register-all"]
Inductive jsval : Type :=
  | JUndefined
  | JNull
  | JBool (b : bool)
  | JNum (n : Z)
  | JStr (s : string)
  | JObj (props : list (string * jsval)).

(** ToBoolean, as applied by [if (x)], [x && y] and [x ? a : b]. *)
Definition truthy (v : jsval) : bool :=
  match v with
  | JUndefined | JNull => false
  | JBool b => b
  | JNum n => negb (n =? 0)
  | JStr s => negb (String.eqb s "")
  | JObj _ => true
  end.

(** ToString, as applied to a value spliced into a template literal:
    the text JavaScript splices for the values on which [plain], below,
    holds.  It is not for the others: ToString throws on an object whose
    own property [toString] hides the inherited method, and prints an
    integer beyond the safe ones rounded or with an exponent. *)
Definition to_string (v : jsval) : string :=
  match v with
  | JUndefined => "undefined"
  | JNull => "null"
  | JBool true => "true"
  | JBool false => "false"
  | JNum n => pretty n
  | JStr s => s
  | JObj _ => "[object Object]"
  end.

(** [v === 'lit'] for a string literal. *)
Definition is_string (v : jsval) (lit : string) : bool :=
  match v with
  | JStr s => String.eqb s lit
  | _ => false
  end.

(** [v === n] for a number literal. *)
Definition is_number (v : jsval) (n : Z) : bool :=
  match v with
  | JNum m => m =? n
  | _ => false
  end.

(** ** Exceptions *)

Inductive JsError : Type := TypeError.

Inductive Result (A : Type) : Type :=
  | Ok (a : A)
  | Throw (e : JsError).
Arguments Ok {A} a.
Arguments Throw {A} e.

Global Instance Result_ret : MRet Result := @Ok.

Global Instance Result_fmap : FMap Result := λ A B f r,
  match r with
  | Ok a => Ok (f a)
  | Throw e => Throw e
  end.

Global Instance Result_bind : MBind Result := λ A B k r,
  match r with
  | Ok a => k a
  | Throw e => Throw e
  end.

(** The monadic left fold that a [for] loop with a throwing body is. *)
Fixpoint for_each {S E} (body : S → E → Result S) (s : S) (l : list E)
  : Result S :=
  match l with
  | [] => Ok s
  | e :: l' => s' ← body s e; for_each body s' l'
  end.

(** The property [k] of a plain object, [undefined] when it has none. *)
Fixpoint assoc (k : string) (props : list (string * jsval)) : jsval :=
  match props with
  | [] => JUndefined
  | (k', v) :: rest => if String.eqb k' k then v else assoc k rest
  end.

(** [v.k]: reading a property of [undefined] or [null] throws; a plain
    object yields the property or [undefined]; the primitives have no
    property of the names the generator reads ([width], [height]). *)
Definition get_prop (v : jsval) (k : string) : Result jsval :=
  match v with
  | JUndefined | JNull => Throw TypeError
  | JObj props => Ok (assoc k props)
  | _ => Ok JUndefined
  end.

(** ** Strings *)

Definition newLine : string := String (Ascii.ascii_of_nat 10) EmptyString.

Fixpoint drop_string (n : nat) (s : string) : string :=
  match n, s with
  | O, _ => s
  | S n', String _ s' => drop_string n' s'
  | S _, EmptyString => EmptyString
  end.

(** [s.replace(pat, rep)] with a string pattern: the first occurrence
    only (the replacement text used here has no [$] pattern). *)
Fixpoint replace (pat rep s : string) : string :=
  if String.prefix pat s then rep +:+ drop_string (String.length pat) s
  else match s with
       | EmptyString => EmptyString
       | String c s' => String c (replace pat rep s')
       end.

(** ** Block.js *)

Module Block.

(** Modelled from the spec: the semantic tags of a line (the tables
    [dom-events-to-record] and [pptr-actions] are missing from the
    sources at hand).  Only the names the generator uses are known; no
    tag is ever printed or compared. *)
Inductive LineType : Type :=
  | CHANGE | KEYDOWN | CLICK
  | GOTO | VIEWPORT | NAVIGATION | NAVIGATION_PROMISE | FRAME_SET.

(** A line as a block keeps it: the tag and the text the generator gives
    it, and the frame id it takes from its block. *)
Record Line : Type := mkLine {
  type : option LineType;     (* [None]: [null] or absent *)
  value : string;
  frameId : option Z          (* [None]: absent *)
}.

(** The object literal [{ type: t, value: v }]. *)
Definition line (t : option LineType) (v : string) : Line :=
  mkLine t v None.

(** Modelled from the spec: the class [Block] (Block.js is missing from
    the sources at hand).  A block owns an ordered sequence of lines,
    is associated with a frame id at construction, and supports
    insertion at head or tail; the frame-declaration pass reads that
    frame id off the block's lines, so a line takes the frame id of the
    block it is put in. *)
Record t : Type := mk {
  _frameId : option Z;        (* [None]: [new Block()] *)
  _lines : list Line
}.

(** Modelled from the spec: a line put in a block takes the frame id of
    the block (Block.js is missing). *)
Definition stamp (fid : option Z) (l : Line) : Line :=
  mkLine (type l) (value l) fid.

(** Modelled from the spec: [new Block(frameId, line)], the line being
    optional (Block.js is missing). *)
Definition new (fid : option Z) (l : option Line) : t :=
  mk fid (match l with Some l => [stamp fid l] | None => [] end).

(** Modelled from the spec: insertion at the head (Block.js is
    missing). *)
Definition addLineToTop (b : t) (l : Line) : t :=
  mk (_frameId b) (stamp (_frameId b) l :: _lines b).

(** Modelled from the spec: insertion at the tail (Block.js is
    missing). *)
Definition addLine (b : t) (l : Line) : t :=
  mk (_frameId b) (_lines b ++ [stamp (_frameId b) l]).

(** Modelled from the spec: the ordered sequence of lines of the block
    (Block.js is missing). *)
Definition getLines (b : t) : list Line := _lines b.

End Block.

(** ** Event records *)

Module Event.

(** One record of the input list.  Every field but [frameId] is an
    arbitrary value; [frameId] is the integer the browser assigns to
    the originating frame, or absent. *)
Record t : Type := mk {
  action : jsval;
  selector : jsval;
  value : jsval;
  href : jsval;
  keyCode : jsval;
  tagName : jsval;
  frameId : option Z;
  frameUrl : jsval;
  comments : jsval
}.

End Event.

(** ** The module-level constants *)

Definition importPuppeteer : string :=
  "const puppeteer = require('puppeteer');" +:+ newLine.

Definition header : string :=
  "const browser = await puppeteer.launch()" +:+ newLine +:+
  "const page = await browser.newPage()".

Definition footer : string := "await browser.close()".

Definition wrappedHeader : string :=
  "(async () => {" +:+ newLine +:+
  "  const browser = await puppeteer.launch()" +:+ newLine +:+
  "  const page = await browser.newPage()" +:+ newLine.

Definition wrappedFooter : string :=
  "  await browser.close()" +:+ newLine +:+
  "})()".

(** An options object: its own properties. *)
Abbreviation Options := (gmap string jsval).

(** The initial content of the exported object [defaults]. *)
Definition defaults : Options :=
  <["wrapAsync" := JBool true]>
  (<["headless" := JBool true]>
  (<["waitForNavigation" := JBool true]>
  (<["waitForSelectorOnClick" := JBool true]>
  (<["blankLinesBetweenBlocks" := JBool true]>
  (<["dataAttribute" := JStr ""]>
  (<["useRegexForDataAttribute" := JBool false]>
  (<["customLineAfterClick" := JStr ""]> ∅))))))).

(** [o.k] on an options object. *)
Definition option_of (o : Options) (k : string) : jsval :=
  default JUndefined (o !! k).

(** [Object.assign(target, source)]: the content of [target] afterwards. *)
Definition Object_assign (target source : Options) : Options :=
  source ∪ target.

(** ** CodeGenerator.js *)

Module CodeGenerator.

Import Block.

(** The instance fields.  [this._options] is not among them: it is a
    reference to the shared object [defaults], whose current content
    every method below takes as [opts]. *)
Record t : Type := mk {
  _blocks : list Block.t;
  _frame : string;
  _frameId : Z;
  _allFrames : gmap string jsval;
  _hasNavigation : bool
}.

(** The fields as the constructor leaves them. *)
Definition fresh : t :=
  mk [] "page" 0 ∅ false.

(** The store: the content of the module-level object [defaults]. *)
Record Store : Type := mkStore { store_defaults : Options }.

Definition initial_store : Store := mkStore defaults.

(** [new CodeGenerator(options)]: [Object.assign(defaults, options)]
    writes the caller's options into the shared object and returns that
    same object.  A call without argument is the call with [∅]. *)
Definition constructor (options : Options) (σ : Store) : Store * t :=
  (mkStore (Object_assign (store_defaults σ) options), fresh).

(** [blocks.splice(i, 0, x)]: a start index beyond the end is clamped
    to the end, as [take] and [drop] do. *)
Definition splice_insert {A} (i : nat) (x : A) (l : list A) : list A :=
  take i l ++ x :: drop i l.

(** The block [blankLine] of [_postProcessAddBlankLines]. *)
Definition blankLine : Block.t :=
  addLine (Block.new None None) (line None "").

(** The [while (i <= this._blocks.length)] loop of
    [_postProcessAddBlankLines], from the loop variable [i] on. *)
Equations? add_blank_lines_from (i : nat) (blocks : list Block.t)
  : list Block.t by wf (S (length blocks) - i)%nat lt :=
  add_blank_lines_from i blocks with decide (i ≤ length blocks)%nat := {
    | left _ =>
        add_blank_lines_from (i + 2) (splice_insert i blankLine blocks)
    | right _ => blocks }.
Proof.
  unfold splice_insert.
  rewrite length_app, length_take; cbn [length]; rewrite length_drop.
  lia.
Qed.

Section Methods.

(** The content of the object [this._options] points to. *)
Variable opts : Options.

Definition _getHeader : string :=
  let hdr := if truthy (option_of opts "wrapAsync")
             then wrappedHeader else header in
  if truthy (option_of opts "headless") then hdr
  else replace "launch()" "launch({ headless: false })" hdr.

Definition _getFooter : string :=
  if truthy (option_of opts "wrapAsync") then wrappedFooter else footer.

(** The property key of a frame id, and the name of its variable. *)
Definition frame_key (frameId : Z) : string := pretty frameId.

Definition _setFrames (g : t) (frameId : option Z) (frameUrl : jsval)
  : t :=
  match frameId with
  | Some fid =>
      if negb (fid =? 0) then
        mk (_blocks g) ("frame_" +:+ frame_key fid) fid
           (<[frame_key fid := frameUrl]> (_allFrames g))
           (_hasNavigation g)
      else mk (_blocks g) "page" 0 (_allFrames g) (_hasNavigation g)
  | None => mk (_blocks g) "page" 0 (_allFrames g) (_hasNavigation g)
  end.

Definition _handleComments (block : Block.t) (comments : jsval)
  : Block.t :=
  if truthy comments
  then addLineToTop block
         (line None ("/** " +:+ to_string comments +:+ " */"))
  else block.

Definition _handleSubmit (g : t) (selector value : jsval) : Block.t :=
  Block.new (Some (_frameId g))
    (Some (line (Some CHANGE)
       ("await " +:+ _frame g +:+ ".$eval('" +:+ to_string selector
        +:+ "', form => form.submit())"))).

Definition _handleKeyDown (g : t) (selector value keyCode : jsval)
  : Block.t :=
  let block := Block.new (Some (_frameId g)) None in
  addLine block
    (line (Some KEYDOWN)
       ("await " +:+ _frame g +:+ ".type('" +:+ to_string selector
        +:+ "', '" +:+ to_string value +:+ "')")).

Definition _handleClick (g : t) (selector : jsval) : Block.t :=
  let block := Block.new (Some (_frameId g)) None in
  let block :=
    if truthy (option_of opts "waitForSelectorOnClick")
    then addLine block
           (line (Some CLICK)
              ("await " +:+ _frame g +:+ ".waitForSelector('"
               +:+ to_string selector +:+ "')"))
    else block in
  let block :=
    addLine block
      (line (Some CLICK)
         ("await " +:+ _frame g +:+ ".click('" +:+ to_string selector
          +:+ "')")) in
  if truthy (option_of opts "customLineAfterClick")
  then addLine block
         (line (Some CLICK)
            (to_string (option_of opts "customLineAfterClick")))
  else block.

Definition _handleSelectChange (g : t) (selector value : jsval)
  : Block.t :=
  Block.new (Some (_frameId g))
    (Some (line (Some CHANGE)
       ("await " +:+ _frame g +:+ ".select('" +:+ to_string selector
        +:+ "', '" +:+ to_string value +:+ "')"))).

Definition _handleChange (g : t) (selector value : jsval) : Block.t :=
  Block.new (Some (_frameId g))
    (Some (line (Some CHANGE)
       ("await " +:+ _frame g +:+ ".type('" +:+ to_string selector
        +:+ "', '" +:+ to_string value +:+ "')"))).

Definition _handleGoto (g : t) (href : jsval) : Block.t :=
  Block.new (Some (_frameId g))
    (Some (line (Some GOTO)
       ("await " +:+ _frame g +:+ ".goto('" +:+ to_string href
        +:+ "')"))).

Definition _handleViewport (g : t) (width height : jsval) : Block.t :=
  Block.new (Some (_frameId g))
    (Some (line (Some VIEWPORT)
       ("await " +:+ _frame g +:+ ".setViewport({ width: "
        +:+ to_string width +:+ ", height: " +:+ to_string height
        +:+ " })"))).

Definition _handleWaitForNavigation (g : t) : Block.t :=
  let block := Block.new (Some (_frameId g)) None in
  if truthy (option_of opts "waitForNavigation")
  then addLine block (line (Some NAVIGATION) "await navigationPromise")
  else block.

Definition set_hasNavigation (g : t) : t :=
  mk (_blocks g) (_frame g) (_frameId g) (_allFrames g) true.

Definition push (g : t) (b : Block.t) : t :=
  mk (_blocks g ++ [b]) (_frame g) (_frameId g) (_allFrames g)
     (_hasNavigation g).

(** The [switch (action)] of the event loop: the value of [newBlock]
    after it ([None] for [null]) and the instance fields. *)
Definition dispatch (g : t) (e : Event.t)
  : Result (option Block.t * t) :=
  let action := Event.action e in
  if is_string action "submit" then
    Ok (if is_string (Event.tagName e) "FORM"
        then Some (_handleSubmit g (Event.selector e) (Event.value e))
        else None, g)
  else if is_string action "keydown" then
    Ok (if is_number (Event.keyCode e) 9
        then Some (_handleKeyDown g (Event.selector e) (Event.value e)
                     (Event.keyCode e))
        else None, g)
  else if is_string action "click" then
    Ok (Some (_handleClick g (Event.selector e)), g)
  else if is_string action "change" then
    Ok (Some (if is_string (Event.tagName e) "SELECT"
              then _handleSelectChange g (Event.selector e)
                     (Event.value e)
              else _handleChange g (Event.selector e) (Event.value e)),
        g)
  else if is_string action "goto*" then
    Ok (Some (_handleGoto g (Event.href e)), g)
  else if is_string action "viewport*" then
    width ← get_prop (Event.value e) "width";
    height ← get_prop (Event.value e) "height";
    Ok (Some (_handleViewport g width height), g)
  else if is_string action "navigation*" then
    Ok (Some (_handleWaitForNavigation g), set_hasNavigation g)
  else Ok (None, g).

(** One iteration of the event loop. *)
Definition parse_event (g : t) (e : Event.t) : Result t :=
  let g := _setFrames g (Event.frameId e) (Event.frameUrl e) in
'(newBlock, g) ← dispatch g e;
  Ok (match newBlock with
      | Some b => push g (_handleComments b (Event.comments e))
      | None => g
      end).

(** The declaration block put in front when a navigation was seen. *)
Definition navigationPromise_block (g : t) : Block.t :=
  Block.new (Some (_frameId g))
    (Some (line (Some NAVIGATION_PROMISE)
       "const navigationPromise = page.waitForNavigation()")).

Definition unshift (g : t) (b : Block.t) : t :=
  mk (b :: _blocks g) (_frame g) (_frameId g) (_allFrames g)
     (_hasNavigation g).

(** The [if] between the event loop and the post-processing. *)
Definition hoist_navigationPromise (g : t) : t :=
  if _hasNavigation g && truthy (option_of opts "waitForNavigation")
  then unshift g (navigationPromise_block g)
  else g.

(** The two lines [_postProcessSetFrames] puts on top of a block. *)
Definition declare_frame (allFrames : gmap string jsval)
    (block : Block.t) (fid : Z) : Block.t :=
  let declaration :=
    "const frame_" +:+ frame_key fid
    +:+ " = frames.find(f => f.url() === '"
    +:+ to_string (default JUndefined (allFrames !! frame_key fid))
    +:+ "')" in
  addLineToTop
    (addLineToTop block (line (Some FRAME_SET) declaration))
    (line (Some FRAME_SET) "let frames = await page.frames()").

(** The inner loop of [_postProcessSetFrames] over the lines of one
    block, up to its [break]: the block and the pending map after. *)
Fixpoint scan_lines (allFrames : gmap string jsval) (block : Block.t)
    (lines : list Line) : Block.t * gmap string jsval :=
  match lines with
  | [] => (block, allFrames)
  | l :: rest =>
      match frameId l with
      | Some fid =>
          if negb (fid =? 0)
             && bool_decide (frame_key fid ∈ dom allFrames)
          then (declare_frame allFrames block fid,
                delete (frame_key fid) allFrames)
          else scan_lines allFrames block rest
      | None => scan_lines allFrames block rest
      end
  end.

(** The outer loop of [_postProcessSetFrames] over the blocks. *)
Fixpoint set_frames (allFrames : gmap string jsval)
    (blocks : list Block.t) : list Block.t * gmap string jsval :=
  match blocks with
  | [] => ([], allFrames)
  | block :: rest =>
      let '(block', allFrames') :=
        scan_lines allFrames block (getLines block) in
      let '(rest', allFrames'') := set_frames allFrames' rest in
      (block' :: rest', allFrames'')
  end.

Definition _postProcessSetFrames (g : t) : t :=
  let '(blocks, allFrames) := set_frames (_allFrames g) (_blocks g) in
  mk blocks (_frame g) (_frameId g) allFrames (_hasNavigation g).

Definition _postProcessAddBlankLines (g : t) : t :=
  mk (add_blank_lines_from 0 (_blocks g)) (_frame g) (_frameId g)
     (_allFrames g) (_hasNavigation g).

Definition _postProcess (g : t) : t :=
  let g :=
    if bool_decide (0 < size (_allFrames g))%nat
    then _postProcessSetFrames g else g in
  if truthy (option_of opts "blankLinesBetweenBlocks")
     && bool_decide (0 < length (_blocks g))%nat
  then _postProcessAddBlankLines g else g.

(** The two nested loops that print the lines of the blocks. *)
Definition print_blocks (indent : string) (blocks : list Block.t)
  : string :=
  foldl (λ result block,
           foldl (λ result l,
                    result +:+ indent +:+ value l +:+ newLine)
                 result (getLines block))
        "" blocks.

Definition _parseEvents (g : t) (events : list Event.t)
  : Result (string * t) :=
  g ← for_each parse_event g events;
  let g := hoist_navigationPromise g in
  let g := _postProcess g in
  let indent :=
    if truthy (option_of opts "wrapAsync") then "  " else "" in
  Ok (print_blocks indent (_blocks g), g).

Definition generate (g : t) (events : list Event.t)
  : Result (string * t) :=
  let hdr := _getHeader in
  '(body, g) ← _parseEvents g events;
  Ok (importPuppeteer +:+ hdr +:+ body +:+ _getFooter, g).

End Methods.

(** [new CodeGenerator(options).generate(events)] in the store [σ]:
    the store afterwards and the script, or the exception. *)
Definition compile (options : Options) (events : list Event.t)
    (σ : Store) : Store * Result string :=
  let '(σ, g) := constructor options σ in
  (σ, fst <$> generate (store_defaults σ) g events).

End CodeGenerator.

(** ** Notions the properties are stated with *)

Import Block CodeGenerator.

(** [n] blocks interleaved with [n + 1] blank ones. *)
Definition interleave (blocks : list Block.t) : list Block.t :=
  blankLine :: flat_map (λ b, [b; blankLine]) blocks.

(** A block is blank when it prints nothing but empty lines. *)
Definition non_blank (b : Block.t) : bool :=
  negb (forallb (λ l, String.eqb (value l) "") (getLines b)).

(** The lines of a block list, in the order they are printed. *)
Definition lines_of (blocks : list Block.t) : list Line :=
  flat_map getLines blocks.

(** The text of a list of lines. *)
Fixpoint print_lines (indent : string) (ls : list Line) : string :=
  match ls with
  | [] => ""
  | l :: ls' => indent +:+ value l +:+ newLine +:+ print_lines indent ls'
  end.

(** An event record with every field absent but the given ones. *)
Definition event (action : string) (selector : jsval) (frameId : option Z)
    (frameUrl : jsval) : Event.t :=
  Event.mk (JStr action) selector JUndefined JUndefined JUndefined
    JUndefined frameId frameUrl JUndefined.

(** The actions the [switch] of the event loop has a case for. *)
Definition recognized (action : jsval) : bool :=
  existsb (is_string action)
    ["submit"; "keydown"; "click"; "change"; "goto*"; "viewport*";
     "navigation*"].

(** The guard inside the case of the event's action fails. *)
Definition guard_fails (e : Event.t) : bool :=
  is_string (Event.action e) "submit"
    && negb (is_string (Event.tagName e) "FORM")
  || is_string (Event.action e) "keydown"
    && negb (is_number (Event.keyCode e) 9).

(** A [viewport*] event carries a value whose properties can be read. *)
Definition viewport_has_value (e : Event.t) : bool :=
  negb (is_string (Event.action e) "viewport*")
  || match Event.value e with
     | JUndefined | JNull => false
     | _ => true
     end.

(** The event is a [navigation*]. *)
Definition is_navigation (e : Event.t) : bool :=
  is_string (Event.action e) "navigation*".

(** The block an event appends to the list, if any: built by the handler
    of its action in the frame the event comes from, under the event's
    comment. *)
Definition emitted (opts : Options) (e : Event.t) : option Block.t :=
  match dispatch opts
          (_setFrames fresh (Event.frameId e) (Event.frameUrl e)) e with
  | Ok (Some b, _) => Some (_handleComments b (Event.comments e))
  | _ => None
  end.

(** The events that put text into the script: the dispatch rules, with
    the block of a [navigation*] printing something when navigation
    waiting is enabled or the event carries a comment. *)
Definition produces_block (opts : Options) (e : Event.t) : bool :=
  let action := Event.action e in
  is_string action "submit" && is_string (Event.tagName e) "FORM"
  || is_string action "keydown" && is_number (Event.keyCode e) 9
  || is_string action "click"
  || is_string action "change"
  || is_string action "goto*"
  || is_string action "viewport*"
  || is_string action "navigation*"
     && (truthy (option_of opts "waitForNavigation")
         || truthy (Event.comments e)).

(** The block [b] of the output is the block of the event [e], possibly
    under lines that a later pass put on top of it. *)
Definition originates (opts : Options) (b : Block.t) (e : Event.t) : Prop :=
  ∃ b0 pre, emitted opts e = Some b0 ∧ getLines b = pre ++ getLines b0.

(** The block has a line of the frame [fid]. *)
Definition references (b : Block.t) (fid : Z) : Prop :=
  ∃ l, l ∈ getLines b ∧ frameId l = Some fid.

(** All lines of the block have the frame id [fid] of the block. *)
Definition uniform (b : Block.t) (fid : Z) : Prop :=
  Block._frameId b = Some fid
  ∧ Forall (λ l, frameId l = Some fid) (getLines b).

(** A block after a pass: the block before, possibly under new lines;
    a block without lines stays without lines. *)
Definition extends (b' b : Block.t) : Prop :=
  Block._frameId b' = Block._frameId b
  ∧ ∃ pre, getLines b' = pre ++ getLines b ∧ (getLines b = [] → pre = []).

(** The frame id an event sets as the current one. *)
Definition frame_of (e : Event.t) : Z :=
  default 0 (Event.frameId e).

(** ** Further notions *)

(** The option keys the generator reads. *)
Definition used_options : list string :=
  ["wrapAsync"; "headless"; "waitForNavigation"; "waitForSelectorOnClick";
   "blankLinesBetweenBlocks"; "customLineAfterClick"].

(** Two options objects read the same under every key the generator
    reads. *)
Definition agree (o1 o2 : Options) : Prop :=
  Forall (λ k, option_of o1 k = option_of o2 k) used_options.

(** The event without its comment. *)
Definition without_comments (e : Event.t) : Event.t :=
  Event.mk (Event.action e) (Event.selector e) (Event.value e)
    (Event.href e) (Event.keyCode e) (Event.tagName e) (Event.frameId e)
    (Event.frameUrl e) JUndefined.

Global Instance LineType_eq_dec : EqDecision LineType.
Proof. solve_decision. Defined.

(** The two lines that declare the frame [fid], as a block of that frame
    keeps them. *)
Definition frames_line (fid : Z) : Line :=
  mkLine (Some FRAME_SET) "let frames = await page.frames()" (Some fid).

Definition frame_line (fid : Z) (url : jsval) : Line :=
  mkLine (Some FRAME_SET)
    ("const frame_" +:+ frame_key fid
     +:+ " = frames.find(f => f.url() === '" +:+ to_string url +:+ "')")
    (Some fid).

(** The lines of the frame [fid] among [ls], in order. *)
Definition lines_of_frame (fid : Z) (ls : list Line) : list Line :=
  filter (λ l, frameId l = Some fid) ls.

(** ** content-scripts/index.js *)

Module EventRecorder.

Definition dot : Ascii.ascii := Ascii.ascii_of_nat 46.
Definition backslash : Ascii.ascii := Ascii.ascii_of_nat 92.
Definition space : Ascii.ascii := Ascii.ascii_of_nat 32.
Definition quote : string := String (Ascii.ascii_of_nat 34) EmptyString.

(** [s.replace(/\./g, '\\.')]: every dot becomes a backslash and a
    dot. *)
Fixpoint escape_dots (s : string) : string :=
  match s with
  | EmptyString => EmptyString
  | String c s' =>
      if Ascii.eqb c dot
      then String backslash (String dot (escape_dots s'))
      else String c (escape_dots s')
  end.

(** The target of an event as the recorder reads it: the attributes, name
    and value, in the order of [target.attributes]. *)
Record Element : Type := mkElement {
  attributes : list (string * string)
}.

(** [element.getAttribute(name)]: the value of the first attribute of
    that name, [null] when there is none.  The names are taken as
    [target.attributes] lists them, in lower case on an HTML element,
    which is how [getAttribute] reads the name it is given. *)
Fixpoint lookup_attribute (name : string) (attrs : list (string * string))
  : jsval :=
  match attrs with
  | [] => JNull
  | (n, v) :: rest =>
      if String.eqb n name then JStr v else lookup_attribute name rest
  end.

Definition getAttribute (element : Element) (name : string) : jsval :=
  lookup_attribute name (attributes element).

Definition formatDataSelector (element : Element) (attribute : string)
  : string :=
  escape_dots
    ("[" +:+ attribute +:+ "=" +:+ quote
     +:+ to_string (getAttribute element attribute) +:+ quote +:+ "]").

(** [s.split(' ')]. *)
Fixpoint split_space (s : string) : list string :=
  match s with
  | EmptyString => [EmptyString]
  | String c s' =>
      if Ascii.eqb c space then EmptyString :: split_space s'
      else match split_space s' with
           | t :: ts => String c t :: ts
           | [] => [String c EmptyString]
           end
  end.

(** [s.split(' ').filter(f => f !== '')]. *)
Definition tokens (s : string) : list string :=
  filter (λ f, f ≠ EmptyString) (split_space s).

(** The value [start] gives [this.dataAttributes] from the option
    [dataAttribute] when [useRegexForDataAttribute] is not set: left
    undefined ([None]) for a falsy option; the tokens of a string; a
    [TypeError] for any other value, which has no [split]. *)
Definition dataAttributes_of (dataAttribute : jsval)
  : Result (option (list string)) :=
  if truthy dataAttribute then
    match dataAttribute with
    | JStr s => Ok (Some (tokens s))
    | _ => Throw TypeError
    end
  else Ok None.

Section Search.

(** The patterns are strings or regular expressions; [test p name] is
    [p.test(name)] or [p === name], as [useRegexForDataAttribute]
    says. *)
Context {Pattern : Type} (test : Pattern → string → bool).

(** The loop of [recordEvent] over the attributes of the target, for one
    pattern. *)
Fixpoint first_match (p : Pattern) (names : list string) : option string :=
  match names with
  | [] => None
  | n :: rest => if test p n then Some n else first_match p rest
  end.

(** [customAttribute] after [this.dataAttributes.find(...)] ([None] for
    [null]). *)
Fixpoint custom_attribute (patterns : list Pattern) (names : list string)
  : option string :=
  match patterns with
  | [] => None
  | p :: ps =>
      match first_match p names with
      | Some n => Some n
      | None => custom_attribute ps names
      end
  end.

End Search.

(** The text [formatDataSelector] escapes, read back. *)
Fixpoint unescape_dots (s : string) : string :=
  match s with
  | EmptyString => EmptyString
  | String c1 rest =>
      match rest with
      | String c2 s' =>
          if Ascii.eqb c1 backslash && Ascii.eqb c2 dot
          then String dot (unescape_dots s')
          else String c1 (unescape_dots rest)
      | EmptyString => String c1 EmptyString
      end
  end.

(** The number of dots of a string. *)
Fixpoint count_dots (s : string) : nat :=
  match s with
  | EmptyString => O
  | String c s' => ((if Ascii.eqb c dot then 1 else 0) + count_dots s')%nat
  end.

(** The string has a space. *)
Fixpoint has_space (s : string) : bool :=
  match s with
  | EmptyString => false
  | String c s' => Ascii.eqb c space || has_space s'
  end.

(** The strings joined by single spaces: [ts.join(' ')]. *)
Fixpoint join_space (ts : list string) : string :=
  match ts with
  | [] => EmptyString
  | [t] => t
  | t :: rest => t +:+ String space (join_space rest)
  end.

End EventRecorder.

(** The variable that the statements of frame [fid] address. *)
Definition frame_variable (fid : Z) : string :=
  if fid =? 0 then "page" else "frame_" +:+ frame_key fid.

(** ** Values that splice as modelled *)

(** [Number.MAX_SAFE_INTEGER]: every integer up to it, in absolute
    value, is a JavaScript number and prints as its decimal digits. *)
Definition MAX_SAFE_INTEGER : Z := 9007199254740991.

(** [props] has an own property [k]. *)
Definition has_own (k : string) (props : list (string * jsval)) : bool :=
  existsb (λ kv, String.eqb kv.1 k) props.

(** ToString returns on [v]: it does on every primitive, and on an
    object that inherits both conversion methods, [toString] and
    [valueOf].  On an object with an own property [toString] it throws a
    [TypeError]: the properties of a value that crossed the message
    channel are data, none of them callable, and the inherited [valueOf]
    returns the object itself. *)
Definition stringifies (v : jsval) : bool :=
  match v with
  | JObj props =>
      negb (has_own "toString" props) && negb (has_own "valueOf" props)
  | _ => true
  end.

(** ToString returns on [v], and returns [to_string v]: an integer beyond
    the safe ones is printed rounded, or with an exponent. *)
Definition plain (v : jsval) : bool :=
  match v with
  | JNum n => Z.abs n <=? MAX_SAFE_INTEGER
  | _ => stringifies v
  end.

(** The values that compiling the event may splice into a template
    literal: those its handler splices, its comment, which
    [_handleComments] splices when the event produces a block, and the
    URL of its frame, which [_postProcessSetFrames] splices when it
    declares that frame. *)
Definition spliced (opts : Options) (e : Event.t) : list jsval :=
  let action := Event.action e in
  let custom := option_of opts "customLineAfterClick" in
  (if is_string action "submit" then
     if is_string (Event.tagName e) "FORM" then [Event.selector e] else []
   else if is_string action "keydown" then
     if is_number (Event.keyCode e) 9
     then [Event.selector e; Event.value e] else []
   else if is_string action "click" then
     Event.selector e :: (if truthy custom then [custom] else [])
   else if is_string action "change" then
     [Event.selector e; Event.value e]
   else if is_string action "goto*" then [Event.href e]
   else if is_string action "viewport*" then
     match Event.value e with
     | JObj props => [assoc "width" props; assoc "height" props]
     | _ => []
     end
   else [])
  ++ (if truthy (Event.comments e) then [Event.comments e] else [])
  ++ (if frame_of e =? 0 then [] else [Event.frameUrl e]).

(** The number of lines with the text [text] among [ls]. *)
Definition count_text (text : string) (ls : list Line) : nat :=
  length (filter (λ l, value l = text) ls).

(** * Properties *)

(** ** Strings and printing *)

Lemma append_cons x (a b : string) : String x a +:+ b = String x (a +:+ b).
Proof. done. Qed.

Lemma append_assoc (a b c : string) : (a +:+ b) +:+ c = a +:+ b +:+ c.
Proof.
  induction a as [|x a IH]; [done|]. by rewrite !append_cons, IH.
Qed.

Lemma append_nil_r (a : string) : a +:+ "" = a.
Proof.
  induction a as [|x a IH]; [done|]. by rewrite append_cons, IH.
Qed.

Lemma print_lines_app indent ls1 ls2 :
  print_lines indent (ls1 ++ ls2)
  = print_lines indent ls1 +:+ print_lines indent ls2.
Proof.
  induction ls1 as [|l ls1 IH]; cbn [print_lines app]; [done|].
  by rewrite IH, !append_assoc.
Qed.

Lemma print_inner indent acc ls :
  foldl (λ result l, result +:+ indent +:+ value l +:+ newLine) acc ls
  = acc +:+ print_lines indent ls.
Proof.
  revert acc; induction ls as [|l ls IH]; intros acc;
    cbn [foldl print_lines].
  - by rewrite append_nil_r.
  - by rewrite IH, !append_assoc.
Qed.

Lemma print_outer indent acc bs :
  foldl (λ result block,
           foldl (λ result l, result +:+ indent +:+ value l +:+ newLine)
                 result (getLines block)) acc bs
  = acc +:+ print_lines indent (lines_of bs).
Proof.
  revert acc; induction bs as [|b bs IH]; intros acc;
    cbn [foldl lines_of flat_map].
  - by rewrite append_nil_r.
  - rewrite IH, print_inner. fold (lines_of bs).
    by rewrite print_lines_app, append_assoc.
Qed.

(** The printing loops emit the lines of the blocks in list order, each
    indented and followed by one newline. *)
Lemma print_blocks_lines indent bs :
  print_blocks indent bs = print_lines indent (lines_of bs).
Proof. unfold print_blocks. by rewrite print_outer. Qed.

(** ** Blank-line insertion *)

(** One turn of the [while] loop. *)
Lemma add_blank_lines_from_step (i : nat) (blocks : list Block.t) :
  add_blank_lines_from i blocks
  = if decide (i ≤ length blocks)%nat
    then add_blank_lines_from (i + 2) (splice_insert i blankLine blocks)
    else blocks.
Proof.
  simp add_blank_lines_from.
  destruct (decide _); simpl; [by simp add_blank_lines_from | done].
Qed.

(** Loop invariant: with [i] at the end of the part [pre] that is done
    (a blank block was just put before its last block), the loop leaves
    [pre] alone and interleaves what follows. *)
Lemma add_blank_lines_from_prefix (rest pre : list Block.t) :
  add_blank_lines_from (length pre) (pre ++ rest)
  = pre ++ interleave rest.
Proof.
  revert pre; induction rest as [|b rest IH]; intros pre.
  - rewrite app_nil_r, add_blank_lines_from_step.
    destruct (decide _) as [H|]; [clear H|lia].
    unfold splice_insert. rewrite take_ge, drop_ge by lia.
    rewrite add_blank_lines_from_step.
    destruct (decide _) as [Hle|]; [|done].
    rewrite length_app in Hle. simpl in Hle. lia.
  - rewrite add_blank_lines_from_step.
    destruct (decide _) as [H|Hn];
      [clear H|rewrite length_app in Hn; simpl in Hn; lia].
    unfold splice_insert.
    rewrite take_app_length, drop_app_length.
    specialize (IH (pre ++ [blankLine; b])).
    rewrite length_app in IH. simpl in IH.
    rewrite <- (assoc_L (++)) in IH. simpl in IH.
    rewrite IH. by rewrite <- (assoc_L (++)).
Qed.

Lemma add_blank_lines_interleave (blocks : list Block.t) :
  add_blank_lines_from 0 blocks = interleave blocks.
Proof. exact (add_blank_lines_from_prefix blocks []). Qed.

Lemma interleave_cons b blocks :
  interleave (b :: blocks) = blankLine :: b :: interleave blocks.
Proof. done. Qed.

Lemma length_interleave blocks :
  length (interleave blocks) = (2 * length blocks + 1)%nat.
Proof.
  induction blocks as [|b bs IH]; [done|].
  rewrite interleave_cons. cbn [length]. lia.
Qed.

Lemma interleave_even blocks (i : nat) :
  (i ≤ length blocks)%nat → interleave blocks !! (2 * i)%nat = Some blankLine.
Proof.
  revert i; induction blocks as [|b bs IH]; intros i Hi.
  - cbn [length] in Hi. by replace i with 0%nat by lia.
  - destruct i as [|i]; [done|].
    rewrite interleave_cons.
    replace (2 * S i)%nat with (S (S (2 * i))) by lia.
    cbn [length] in Hi. apply (IH i). lia.
Qed.

Lemma interleave_odd blocks (i : nat) :
  interleave blocks !! (2 * i + 1)%nat = blocks !! i.
Proof.
  revert i; induction blocks as [|b bs IH]; intros i.
  - by replace (2 * i + 1)%nat with (S (2 * i)) by lia.
  - rewrite interleave_cons. destruct i as [|i]; [done|].
    replace (2 * S i + 1)%nat with (S (S (2 * i + 1))) by lia.
    apply (IH i).
Qed.

(** The block list after [_postProcess], in terms of the list that the
    frame pass leaves. *)
Lemma postProcess_blocks (opts : Options) (g : CodeGenerator.t) :
  let g1 := if bool_decide (0 < size (_allFrames g))%nat
            then _postProcessSetFrames g else g in
  _blocks (_postProcess opts g)
  = if truthy (option_of opts "blankLinesBetweenBlocks")
    then match _blocks g1 with
         | [] => []
         | _ :: _ => interleave (_blocks g1)
         end
    else _blocks g1.
Proof.
  intros g1. unfold _postProcess. fold g1.
  destruct (truthy (option_of opts "blankLinesBetweenBlocks")); [|done].
  destruct (_blocks g1) as [|b bs] eqn:Hbs; [done|].
  rewrite bool_decide_true by (simpl; lia).
  cbn [andb _postProcessAddBlankLines _blocks].
  by rewrite Hbs, add_blank_lines_interleave.
Qed.

(** C6. Blank-line insertion: on the block list that the frame pass
    leaves, when [blankLinesBetweenBlocks] is enabled and there is at
    least one block, [_postProcess] puts an empty block between every two
    adjacent blocks, before the first and after the last: [n] blocks
    become [2n + 1], blank at the even positions and the original blocks,
    in order, at the odd ones.  When the option is off or the list is
    empty, the list is left as it is. *)
Theorem blank_line_insertion (opts : Options) (g : CodeGenerator.t) :
  let g1 := if bool_decide (0 < size (_allFrames g))%nat
            then _postProcessSetFrames g else g in
  let blocks := _blocks g1 in
  let blocks' := _blocks (_postProcess opts g) in
  (truthy (option_of opts "blankLinesBetweenBlocks") = true →
   blocks ≠ [] →
     blocks' = blankLine :: flat_map (λ b, [b; blankLine]) blocks
     ∧ length blocks' = (2 * length blocks + 1)%nat
     ∧ (∀ i : nat, (i ≤ length blocks)%nat →
          blocks' !! (2 * i)%nat = Some blankLine)
     ∧ (∀ i : nat, blocks' !! (2 * i + 1)%nat = blocks !! i))
  ∧ (truthy (option_of opts "blankLinesBetweenBlocks") = false
     ∨ blocks = [] →
     blocks' = blocks).
Proof.
  intros g1 blocks blocks'. subst blocks'.
  rewrite postProcess_blocks. fold g1. fold blocks. split.
  - intros -> Hne. destruct blocks as [|b bs] eqn:Hbs; [done|].
    split; [done|]. split; [apply length_interleave|].
    split; [apply interleave_even | apply interleave_odd].
  - intros [-> | ->]; [done|]. by destruct (truthy _).
Qed.

Lemma blank_line_insertion_witness :
  let b := _handleGoto fresh (JStr "https://example.org") in
  let g := push (push fresh b) b in
  truthy (option_of defaults "blankLinesBetweenBlocks") = true
  ∧ _blocks (_postProcess defaults g) = [blankLine; b; blankLine; b; blankLine]
  ∧ _blocks (_postProcess ∅ g) = [b; b].
Proof.
  intros b g.
  destruct (blank_line_insertion defaults g) as [Hon _].
  destruct (blank_line_insertion ∅ g) as [_ Hoff].
  split; [reflexivity|]. split.
  - apply Hon; [reflexivity | discriminate].
  - apply Hoff. left. reflexivity.
Defined.

(** ** The handlers *)

Lemma setFrames_blocks g frameId frameUrl :
  _blocks (_setFrames g frameId frameUrl) = _blocks g.
Proof. unfold _setFrames. by repeat case_match. Qed.

Lemma setFrames_hasNavigation g frameId frameUrl :
  _hasNavigation (_setFrames g frameId frameUrl) = _hasNavigation g.
Proof. unfold _setFrames. by repeat case_match. Qed.

Lemma setFrames_frameId g e :
  _frameId (_setFrames g (Event.frameId e) (Event.frameUrl e)) = frame_of e.
Proof.
  unfold _setFrames, frame_of.
  destruct (Event.frameId e) as [fid|]; [|done]. simpl.
  destruct (Z.eqb_spec fid 0); simpl; congruence.
Qed.

Lemma setFrames_frame_variable g e :
  _frame (_setFrames g (Event.frameId e) (Event.frameUrl e))
  = frame_variable (frame_of e).
Proof.
  unfold _setFrames, frame_variable, frame_of.
  destruct (Event.frameId e) as [fid|]; [|done]. cbn.
  by destruct (fid =? 0).
Qed.



Lemma is_string_true v lit : is_string v lit = true → v = JStr lit.
Proof.
  destruct v; try discriminate. simpl.
  by intros ->%String.eqb_eq.
Qed.




(** C7. Click compilation: the block of a click holds, in this order, the
    wait-for-selector line on the event's selector if
    [waitForSelectorOnClick] is enabled, the click line on that selector,
    and the text of [customLineAfterClick] as one line if that option is
    enabled, which a non-empty string is.  Every click event, from
    whatever frame and with whatever comment, appends that block, on its
    own selector and in its own frame, under its comment if it has one.
    Under the default configuration the single click on [#go] compiles to
    the import, the wrapped headless launch preamble, the wait and the
    click between two blank lines, and the wrapped footer. *)
Theorem click_compilation (opts : Options) (g : CodeGenerator.t)
    (selector : jsval) :
  let fid := Some (_frameId g) in
  let wait :=
    mkLine (Some CLICK)
      ("await " +:+ _frame g +:+ ".waitForSelector('"
       +:+ to_string selector +:+ "')") fid in
  let click :=
    mkLine (Some CLICK)
      ("await " +:+ _frame g +:+ ".click('" +:+ to_string selector
       +:+ "')") fid in
  let custom := option_of opts "customLineAfterClick" in
  getLines (_handleClick opts g selector)
  = (if truthy (option_of opts "waitForSelectorOnClick")
     then [wait] else [])
    ++ [click]
    ++ (if truthy custom
        then [mkLine (Some CLICK) (to_string custom) fid] else [])
  ∧ (∀ c text,
       let opts' := <["customLineAfterClick" := JStr (String c text)]> opts in
       getLines (_handleClick opts' g selector)
       = (if truthy (option_of opts' "waitForSelectorOnClick")
          then [wait] else [])
         ++ [click; mkLine (Some CLICK) (String c text) fid])
  ∧ (∀ e : Event.t,
       Event.action e = JStr "click" →
       forallb plain (spliced opts e) = true →
       let variable := frame_variable (frame_of e) in
       let fid := Some (frame_of e) in
       let comment :=
         mkLine None ("/** " +:+ to_string (Event.comments e) +:+ " */")
           fid in
       let wait :=
         mkLine (Some CLICK)
           ("await " +:+ variable +:+ ".waitForSelector('"
            +:+ to_string (Event.selector e) +:+ "')") fid in
       let click :=
         mkLine (Some CLICK)
           ("await " +:+ variable +:+ ".click('"
            +:+ to_string (Event.selector e) +:+ "')") fid in
       ∃ g', parse_event opts g e = Ok g'
             ∧ _blocks g'
               = _blocks g
                 ++ [Block.mk fid
                       ((if truthy (Event.comments e) then [comment]
                         else [])
                        ++ (if truthy (option_of opts "waitForSelectorOnClick")
                            then [wait] else [])
                        ++ [click]
                        ++ (if truthy custom
                            then [mkLine (Some CLICK) (to_string custom) fid]
                            else []))])
  ∧ (compile ∅
       [Event.mk (JStr "click") (JStr "#go") JUndefined JUndefined
          JUndefined JUndefined None JUndefined (JStr "")]
       initial_store).2
    = Ok (importPuppeteer +:+ wrappedHeader
          +:+ "  " +:+ newLine
          +:+ "  await page.waitForSelector('#go')" +:+ newLine
          +:+ "  await page.click('#go')" +:+ newLine
          +:+ "  " +:+ newLine
          +:+ wrappedFooter).
Proof.
  intros fid wait click custom. split; [|split; [|split]].
  - unfold _handleClick. fold custom.
    by destruct (truthy (option_of opts "waitForSelectorOnClick")),
      (truthy custom).
  - intros c text opts'. unfold _handleClick.
    assert (option_of opts' "customLineAfterClick" = JStr (String c text))
      as ->.
    { unfold option_of, opts'. by rewrite lookup_insert_eq. }
    cbn [truthy String.eqb negb].
    by destruct (truthy (option_of opts' "waitForSelectorOnClick")).
  - intros e Hact _ variable fid' comment wait' click'.
    subst variable fid' comment wait' click'.
    unfold parse_event, dispatch. rewrite Hact. cbn.
    eexists. split; [reflexivity|]. cbn [push _blocks].
    rewrite setFrames_blocks. f_equal. f_equal.
    unfold _handleComments, _handleClick. fold custom.
    rewrite setFrames_frame_variable, setFrames_frameId.
    by destruct (truthy (Event.comments e)),
      (truthy (option_of opts "waitForSelectorOnClick")), (truthy custom).
  - vm_compute. reflexivity.
Qed.

Lemma click_compilation_witness :
  let e := Event.mk (JStr "click") (JStr "#buy") JUndefined JUndefined
             JUndefined JUndefined (Some 7) (JStr "https://shop.example/")
             (JStr "pay") in
  ∃ g', parse_event defaults fresh e = Ok g'
        ∧ value <$> lines_of (_blocks g')
          = ["/** pay */"; "await frame_7.waitForSelector('#buy')";
             "await frame_7.click('#buy')"]
        ∧ frameId <$> lines_of (_blocks g') = [Some 7; Some 7; Some 7].
Proof.
  intros e.
  destruct (click_compilation defaults fresh (Event.selector e))
    as (_ & _ & Hevent & _).
  destruct (Hevent e) as (g' & Hg & Hb); [reflexivity | by vm_compute |].
  exists g'. split; [exact Hg|]. rewrite Hb. split; vm_compute; reflexivity.
Defined.

(** ** Options and the shared [defaults] object *)

(** C5. Statelessness across invocations fails on the code: the
    constructor writes the caller's options into the module-level object
    [defaults], so an instance built with an empty options object after
    an instance built with [{ wrapAsync: false }] prints the unwrapped
    program, whereas the same construction in the initial store prints
    the wrapped one. *)
Theorem constructor_overwrites_defaults :
  let earlier : Options := <["wrapAsync" := JBool false]> ∅ in
  let σ := (constructor earlier initial_store).1 in
  (compile ∅ [] initial_store).2
  = Ok (importPuppeteer +:+ wrappedHeader +:+ wrappedFooter)
  ∧ (compile ∅ [] σ).2 = Ok (importPuppeteer +:+ header +:+ footer)
  ∧ (compile ∅ [] σ).2 ≠ (compile ∅ [] initial_store).2
  ∧ store_defaults σ !! "wrapAsync" = Some (JBool false).
Proof.
  intros earlier σ.
  split; [by vm_compute|]. split; [by vm_compute|].
  split; [by vm_compute|]. by vm_compute.
Qed.

(** ** Skipped events, and the event that cannot be read *)

Lemma dispatch_readable (opts : Options) (g : CodeGenerator.t)
    (e : Event.t) :
  viewport_has_value e = true →
  ∃ newBlock g', dispatch opts g e = Ok (newBlock, g').
Proof.
  unfold viewport_has_value, dispatch. intros Hv.
  destruct (is_string (Event.action e) "submit"); [by eauto|].
  destruct (is_string (Event.action e) "keydown"); [by eauto|].
  destruct (is_string (Event.action e) "click"); [by eauto|].
  destruct (is_string (Event.action e) "change"); [by eauto|].
  destruct (is_string (Event.action e) "goto*"); [by eauto|].
  destruct (is_string (Event.action e) "viewport*").
  - simpl in Hv. destruct (Event.value e); try discriminate; cbn; eauto.
  - destruct (is_string (Event.action e) "navigation*"); eauto.
Qed.

Lemma parse_event_readable (opts : Options) (g : CodeGenerator.t)
    (e : Event.t) :
  viewport_has_value e = true → ∃ g', parse_event opts g e = Ok g'.
Proof.
  intros Hv. unfold parse_event.
  destruct (dispatch_readable opts
              (_setFrames g (Event.frameId e) (Event.frameUrl e)) e Hv)
    as (newBlock & g' & ->).
  cbn. eauto.
Qed.

Lemma for_each_readable (opts : Options) (events : list Event.t) :
  Forall (λ e, viewport_has_value e = true) events →
  ∀ g, ∃ g', for_each (parse_event opts) g events = Ok g'.
Proof.
  induction 1 as [|e events He _ IH]; intros g; simpl; [by eauto|].
  destruct (parse_event_readable opts g e He) as [g1 ->]. cbn. apply IH.
Qed.

(** Against C4 as the specification states it: a [viewport*] event
    without a value makes the whole compilation throw. *)
Lemma viewport_without_value_throws :
  (compile ∅ [event "viewport*" JUndefined None JUndefined]
     initial_store).2 = Throw TypeError
  ∧ ¬ ∃ script,
        (compile ∅ [event "viewport*" JUndefined None JUndefined]
           initial_store).2 = Ok script.
Proof.
  split; [by vm_compute|]. intros [script H]. vm_compute in H. discriminate.
Qed.

(** C4, amended.  On every event sequence whose [viewport*] events carry
    a value that is neither [undefined] nor [null], and in which no value
    that is spliced into a statement, a comment or a frame declaration is
    an object with an own property [toString] or [valueOf], [generate]
    returns a script; and an event whose action is not recognized, or whose guard
    fails (a submit on a tag other than [FORM], a keydown with a key code
    other than 9), is skipped: the iteration returns and leaves the block
    list as it is. *)
Theorem skips_without_aborting (opts : Options) :
  (∀ (g : CodeGenerator.t) (events : list Event.t),
     map_Forall (λ _ url, stringifies url = true) (_allFrames g) →
     Forall (λ e, viewport_has_value e = true
                  ∧ forallb stringifies (spliced opts e) = true) events →
     ∃ script g', generate opts g events = Ok (script, g'))
  ∧ (∀ (g : CodeGenerator.t) (e : Event.t),
       recognized (Event.action e) = false ∨ guard_fails e = true →
       ∃ g', parse_event opts g e = Ok g' ∧ _blocks g' = _blocks g).
Proof.
  split.
  - intros g events _ Hev.
    assert (Forall (λ e, viewport_has_value e = true) events) as Hval.
    { eapply Forall_impl; [exact Hev|]. by intros e [He _]. }
    destruct (for_each_readable opts events Hval g) as [g1 Hg1].
    unfold generate, _parseEvents. rewrite Hg1. cbn. eauto.
  - intros g e Hskip. unfold parse_event, dispatch.
    destruct Hskip as [Hun | Hguard].
    + unfold recognized in Hun. cbn [existsb] in Hun.
      repeat (apply orb_false_elim in Hun as [-> Hun]).
      cbn. eexists. split; [reflexivity | apply setFrames_blocks].
    + unfold guard_fails in Hguard.
      apply orb_true_iff in Hguard as [H | H];
        apply andb_true_iff in H as [Hact Hg];
        rewrite (is_string_true _ _ Hact); apply negb_true_iff in Hg;
        cbn; rewrite Hg; cbn;
        (eexists; split; [reflexivity | apply setFrames_blocks]).
Qed.

Lemma skips_without_aborting_witness :
  let events :=
    [event "mousemove" (JStr "#a") None JUndefined;
     Event.mk (JStr "viewport*") JUndefined
       (JObj [("width", JNum 800); ("height", JNum 600)]) JUndefined
       JUndefined JUndefined None JUndefined JUndefined;
     event "click" (JStr "#go") (Some 3) (JStr "https://example.org/")] in
  (∃ script g', generate defaults fresh events = Ok (script, g'))
  ∧ (∃ g', parse_event defaults fresh
             (event "mousemove" (JStr "#a") None JUndefined) = Ok g'
           ∧ _blocks g' = _blocks fresh).
Proof.
  intros events.
  destruct (skips_without_aborting defaults) as [Hgen Hskip].
  split.
  - apply (Hgen fresh events); [apply map_Forall_empty|]. subst events.
    repeat (apply Forall_cons_2; [split; vm_compute; reflexivity|]).
    apply Forall_nil_2.
  - apply Hskip. left. reflexivity.
Defined.

(** ** The event loop *)

Lemma action_cases (a : jsval) :
  a = JStr "submit" ∨ a = JStr "keydown" ∨ a = JStr "click"
  ∨ a = JStr "change" ∨ a = JStr "goto*" ∨ a = JStr "viewport*"
  ∨ a = JStr "navigation*" ∨ recognized a = false.
Proof.
  unfold recognized. cbn [existsb].
  destruct (is_string a "submit") eqn:H1;
    [apply is_string_true in H1; tauto|].
  destruct (is_string a "keydown") eqn:H2;
    [apply is_string_true in H2; tauto|].
  destruct (is_string a "click") eqn:H3;
    [apply is_string_true in H3; tauto|].
  destruct (is_string a "change") eqn:H4;
    [apply is_string_true in H4; tauto|].
  destruct (is_string a "goto*") eqn:H5;
    [apply is_string_true in H5; tauto|].
  destruct (is_string a "viewport*") eqn:H6;
    [apply is_string_true in H6; tauto|].
  destruct (is_string a "navigation*") eqn:H7;
    [apply is_string_true in H7; tauto|].
  tauto.
Qed.

(** Case analysis on the action of [e], as the [switch] does it. *)
Ltac case_action e :=
  let H := fresh "Hact" in
  destruct (action_cases (Event.action e))
    as [H|[H|[H|[H|[H|[H|[H|H]]]]]]];
  [rewrite H in *..
  |unfold recognized in H; cbn [existsb] in H;
   repeat (let H' := fresh in
           apply orb_false_elim in H as [H' H]; rewrite H' in *);
   clear H].

Lemma setFrames_frame g frameId frameUrl :
  _frame (_setFrames g frameId frameUrl)
  = _frame (_setFrames fresh frameId frameUrl)
  ∧ _frameId (_setFrames g frameId frameUrl)
    = _frameId (_setFrames fresh frameId frameUrl).
Proof. unfold _setFrames. by repeat case_match. Qed.

(** The [switch] touches no field but the navigation flag. *)
Lemma dispatch_state opts g e newBlock g' :
  dispatch opts g e = Ok (newBlock, g') →
  g' = if is_navigation e then set_hasNavigation g else g.
Proof.
  unfold dispatch, is_navigation. case_action e; cbn.
  1-5, 7-8: by intros [= _ <-].
  destruct (Event.value e); cbn; try discriminate; by intros [= _ <-].
Qed.

(** The block a handler builds depends on the generator only through the
    current frame. *)
Lemma dispatch_block opts g1 g2 e :
  _frame g1 = _frame g2 → _frameId g1 = _frameId g2 →
  fst <$> dispatch opts g1 e = fst <$> dispatch opts g2 e.
Proof.
  intros Hf Hi.
  unfold dispatch, _handleSubmit, _handleKeyDown, _handleClick,
    _handleSelectChange, _handleChange, _handleGoto, _handleViewport,
    _handleWaitForNavigation.
  rewrite Hf, Hi. case_action e; cbn; try done.
  destruct (Event.value e); cbn; done.
Qed.

(** One iteration of the event loop, field by field. *)
Lemma parse_event_inv opts g e g' :
  parse_event opts g e = Ok g' →
  let g0 := _setFrames g (Event.frameId e) (Event.frameUrl e) in
  _frame g' = _frame g0
  ∧ _frameId g' = _frameId g0
  ∧ _allFrames g' = _allFrames g0
  ∧ _hasNavigation g' = _hasNavigation g || is_navigation e
  ∧ _blocks g' = _blocks g ++ option_list (emitted opts e).
Proof.
  intros Hp g0. unfold parse_event in Hp. fold g0 in Hp.
  pose proof (dispatch_block opts g0
                (_setFrames fresh (Event.frameId e) (Event.frameUrl e)) e)
    as Hb.
  destruct (setFrames_frame g (Event.frameId e) (Event.frameUrl e))
    as [Hf Hi].
  specialize (Hb Hf Hi). unfold emitted.
  destruct (dispatch opts g0 e) as [[newBlock g1]|] eqn:Hd; [|done].
  apply dispatch_state in Hd as ->.
  destruct (dispatch opts (_setFrames fresh _ _) e) as [[newBlock' g2]|];
    [|done].
  cbn in Hb. injection Hb as <-. cbn in Hp. injection Hp as <-.
  assert (_blocks g0 = _blocks g) as Hbl by apply setFrames_blocks.
  assert (_hasNavigation g0 = _hasNavigation g) as Hn
    by apply setFrames_hasNavigation.
  destruct (is_navigation e), newBlock as [b|]; cbn;
    rewrite ?Hbl, ?Hn, ?orb_true_r, ?orb_false_r, ?app_nil_r; done.
Qed.

(** ** Frame tracking *)

Lemma frame_key_inj (fid1 fid2 : Z) :
  frame_key fid1 = frame_key fid2 → fid1 = fid2.
Proof. apply (inj pretty). Qed.

Lemma setFrames_allFrames g frameId frameUrl (fid : Z) :
  fid ≠ 0 →
  _allFrames (_setFrames g frameId frameUrl) !! frame_key fid
  = if decide (frameId = Some fid) then Some frameUrl
    else _allFrames g !! frame_key fid.
Proof.
  intros Hfid. unfold _setFrames.
  destruct frameId as [z|]; [|by rewrite decide_False].
  destruct (Z.eqb_spec z 0) as [->|Hz]; cbn.
  - rewrite decide_False; [done | congruence].
  - destruct (decide (Some z = Some fid)) as [[= ->]|Hne].
    + by rewrite lookup_insert_eq.
    + rewrite lookup_insert_ne; [done|].
      intros Hk%frame_key_inj. congruence.
Qed.

Lemma last_cons_filter (P : Event.t → Prop) `{∀ e, Decision (P e)}
    (e : Event.t) (events : list Event.t) :
  last (filter P (e :: events))
  = match last (filter P events) with
    | Some e' => Some e'
    | None => if decide (P e) then Some e else None
    end.
Proof.
  rewrite filter_cons.
  destruct (decide (P e)); [|by destruct (last (filter P events))].
  destruct (filter P events) as [|e1 l] eqn:Hf; [done|].
  rewrite last_cons. by destruct (last (e1 :: l)).
Qed.

(** The pending map after the event loop: a frame id other than 0 is
    bound to the URL of the last event that carried it. *)
Lemma for_each_allFrames opts events : ∀ g g' (fid : Z),
  for_each (parse_event opts) g events = Ok g' →
  fid ≠ 0 →
  _allFrames g' !! frame_key fid
  = match last (filter (λ e, Event.frameId e = Some fid) events) with
    | Some e => Some (Event.frameUrl e)
    | None => _allFrames g !! frame_key fid
    end.
Proof.
  induction events as [|e events IH]; intros g g' fid Hrun Hfid.
  - by injection Hrun as <-.
  - cbn in Hrun.
    destruct (parse_event opts g e) as [g1|] eqn:Hp; [|done]. cbn in Hrun.
    rewrite (IH g1 g' fid Hrun Hfid), last_cons_filter.
    destruct (last (filter _ events)); [done|].
    apply parse_event_inv in Hp as (_ & _ & -> & _).
    rewrite setFrames_allFrames by done. by destruct (decide _).
Qed.

(** Against C8 as the specification states it: a later event of the
    same frame replaces the URL that the first one recorded. *)
Lemma frameUrl_of_first_event_overwritten :
  let events :=
    [event "click" (JStr "#a") (Some 3) (JStr "https://a.example/");
     event "click" (JStr "#b") (Some 3) (JStr "https://b.example/")] in
  ∃ g', for_each (parse_event defaults) fresh events = Ok g'
        ∧ _allFrames g' !! frame_key 3 = Some (JStr "https://b.example/")
        ∧ _allFrames g' !! frame_key 3
          ≠ Event.frameUrl
              <$> head (filter (λ e, Event.frameId e = Some 3) events).
Proof.
  eexists. split; [by vm_compute|]. split; by vm_compute.
Qed.

(** C8, amended.  After an event is processed, the current frame
    variable is [frame_<frameId>] and the current frame id is [frameId]
    when the event's [frameId] is an integer other than 0, and otherwise
    the variable is the page handle and the id is 0.  After a sequence of
    events is processed by a new instance, the pending map binds every
    frame id other than 0 that some event carried to the [frameUrl] of
    the last such event, and no other frame id other than 0. *)
Theorem frame_tracking (opts : Options) :
  (∀ (g g' : CodeGenerator.t) (e : Event.t),
     parse_event opts g e = Ok g' →
     (∀ fid, Event.frameId e = Some fid → fid ≠ 0 →
        _frame g' = "frame_" +:+ pretty fid ∧ _frameId g' = fid)
     ∧ (Event.frameId e = None ∨ Event.frameId e = Some 0 →
        _frame g' = "page" ∧ _frameId g' = 0))
  ∧ (∀ (events : list Event.t) (g' : CodeGenerator.t) (fid : Z),
       for_each (parse_event opts) fresh events = Ok g' →
       fid ≠ 0 →
       _allFrames g' !! frame_key fid
       = Event.frameUrl
           <$> last (filter (λ e, Event.frameId e = Some fid) events)).
Proof.
  split.
  - intros g g' e (Hf & Hi & _)%parse_event_inv.
    rewrite Hf, Hi. unfold _setFrames. split.
    + intros fid -> Hfid. by rewrite (proj2 (Z.eqb_neq fid 0) Hfid).
    + by intros [-> | ->].
  - intros events g' fid Hrun Hfid.
    rewrite (for_each_allFrames opts events fresh g' fid Hrun Hfid).
    by destruct (last (filter _ events)).
Qed.

Lemma frame_tracking_witness :
  let e1 := event "click" (JStr "#a") (Some 3) (JStr "https://a.example/") in
  let e2 := event "click" (JStr "#b") (Some 3) (JStr "https://b.example/") in
  ∃ g1 g2,
    parse_event defaults fresh e1 = Ok g1
    ∧ for_each (parse_event defaults) fresh [e1; e2] = Ok g2
    ∧ _frame g1 = "frame_3" ∧ _frameId g1 = 3
    ∧ _allFrames g2 !! frame_key 3 = Some (JStr "https://b.example/").
Proof.
  intros e1 e2.
  destruct (frame_tracking defaults) as [Hstep Hmap].
  eexists _, _.
  split; [by vm_compute|]. split; [by vm_compute|].
  pose proof (proj1 (Hstep fresh _ e1 eq_refl) 3 eq_refl
                ltac:(discriminate)) as [H1 H2].
  split; [exact H1|]. split; [exact H2|].
  refine (Hmap [e1; e2] _ 3 eq_refl _). discriminate.
Defined.

(** ** The blocks of the event loop *)

Lemma for_each_inv opts events : ∀ g g',
  for_each (parse_event opts) g events = Ok g' →
  _blocks g' = _blocks g ++ omap (emitted opts) events
  ∧ _hasNavigation g' = _hasNavigation g || existsb is_navigation events
  ∧ _frameId g' = from_option frame_of (_frameId g) (last events).
Proof.
  induction events as [|e events IH]; intros g g' Hrun.
  - injection Hrun as <-. by rewrite app_nil_r, orb_false_r.
  - cbn in Hrun.
    destruct (parse_event opts g e) as [g1|] eqn:Hp; [|done]. cbn in Hrun.
    destruct (IH g1 g' Hrun) as (Hb & Hn & Hi).
    apply parse_event_inv in Hp as (_ & Hi1 & _ & Hn1 & Hb1).
    rewrite Hb, Hn, Hi, Hb1, Hn1, Hi1, setFrames_frameId.
    split; [|split].
    + rewrite <- (assoc_L (++)). f_equal. cbn [omap list_omap].
      by destruct (emitted opts e).
    + cbn [existsb]. by rewrite orb_assoc.
    + rewrite last_cons. by destruct (last events).
Qed.

Lemma eqb_append_nonempty c (s1 s2 : string) :
  String.eqb (String c s1 +:+ s2) "" = false.
Proof. done. Qed.

(** What the block of an event looks like: it belongs to the frame of
    the event, so do its lines, none of which is a declaration; it prints
    text exactly when the event is one that produces a block, and is
    empty otherwise. *)
Lemma emitted_spec opts e b :
  emitted opts e = Some b →
  Block._frameId b = Some (frame_of e)
  ∧ Forall (λ l, frameId l = Some (frame_of e)
                 ∧ type l ≠ Some NAVIGATION_PROMISE
                 ∧ type l ≠ Some FRAME_SET) (getLines b)
  ∧ non_blank b = produces_block opts e
  ∧ (getLines b = [] ∨ non_blank b = true).
Proof.
  unfold emitted.
  pose proof (setFrames_frameId fresh e) as Hfid.
  set (g0 := _setFrames fresh _ _) in *. clearbody g0.
  unfold dispatch, produces_block, non_blank, _handleComments,
    _handleSubmit, _handleKeyDown, _handleClick, _handleSelectChange,
    _handleChange, _handleGoto, _handleViewport, _handleWaitForNavigation.
  rewrite Hfid.
  case_action e; cbn;
    repeat match goal with
      | |- context [is_string ?v ?lit] => destruct (is_string v lit)
      | |- context [is_number ?v ?n] => destruct (is_number v n)
      | |- context [truthy ?v] => destruct (truthy v)
      | |- context [get_prop (Event.value ?e) _] =>
          destruct (Event.value e); cbn
      end; cbn;
    try discriminate; intros [= <-]; cbn;
    rewrite ?eqb_append_nonempty; cbn;
    (split; [done|]); (split; [by repeat constructor|]);
    (split; [done|]); auto.
Qed.

(** An event that appends no block is one that produces none. *)
Lemma emitted_none opts g e g' :
  parse_event opts g e = Ok g' →
  emitted opts e = None →
  produces_block opts e = false.
Proof.
  intros Hp. unfold parse_event in Hp.
  pose proof (dispatch_block opts
                (_setFrames g (Event.frameId e) (Event.frameUrl e))
                (_setFrames fresh (Event.frameId e) (Event.frameUrl e)) e)
    as Hb.
  destruct (setFrames_frame g (Event.frameId e) (Event.frameUrl e))
    as [Hf Hi].
  specialize (Hb Hf Hi). unfold emitted.
  destruct (dispatch opts (_setFrames g _ _) e) as [[nb g1]|]; [|done].
  clear Hp.
  set (g0 := _setFrames fresh _ _) in *. clearbody g0.
  revert Hb. unfold dispatch, produces_block.
  case_action e; cbn;
    repeat match goal with
      | |- context [is_string ?v ?lit] => destruct (is_string v lit)
      | |- context [is_number ?v ?n] => destruct (is_number v n)
      | |- context [get_prop (Event.value ?e) _] =>
          destruct (Event.value e); cbn
      end; cbn; done.
Qed.

(** ** What the post-processing passes keep *)

Lemma extends_refl b : extends b b.
Proof. split; [done|]. by exists []. Qed.

Lemma getLines_declare_frame m b fid :
  ∃ l1 l2, getLines (declare_frame m b fid) = [l1; l2] ++ getLines b
           ∧ Block.value l1 = "let frames = await page.frames()"
           ∧ Block.value l2
             = "const frame_" +:+ frame_key fid
               +:+ " = frames.find(f => f.url() === '"
               +:+ to_string (default JUndefined (m !! frame_key fid))
               +:+ "')".
Proof. by eexists _, _. Qed.

(** The inner loop either leaves the block and the map as they are, or
    declares the frame of the first line whose frame is pending. *)
Lemma scan_lines_cases m b lines :
  scan_lines m b lines = (b, m)
  ∨ ∃ fid, fid ≠ 0 ∧ frame_key fid ∈ dom m
           ∧ (∃ l, l ∈ lines ∧ frameId l = Some fid)
           ∧ scan_lines m b lines
             = (declare_frame m b fid, delete (frame_key fid) m).
Proof.
  induction lines as [|l lines IH]; [by left|]. cbn [scan_lines].
  destruct (frameId l) as [fid|] eqn:Hl.
  - destruct (Z.eqb_spec fid 0) as [->|Hfid]; cbn [negb andb].
    + destruct IH as [IH | (fid' & ? & ? & (l' & ? & ?) & ?)];
        [by left | right].
      exists fid'. repeat split; try done. exists l'.
      split; [by apply elem_of_cons; right | done].
    + case_bool_decide as Hdom; cbn.
      * right. exists fid. repeat split; try done. exists l.
        split; [by apply elem_of_cons; left | done].
      * destruct IH as [IH | (fid' & ? & ? & (l' & ? & ?) & ?)];
          [by left | right].
        exists fid'. repeat split; try done. exists l'.
      split; [by apply elem_of_cons; right | done].
  - destruct IH as [IH | (fid' & ? & ? & (l' & ? & ?) & ?)];
      [by left | right].
    exists fid'. repeat split; try done. exists l'.
      split; [by apply elem_of_cons; right | done].
Qed.

Lemma scan_lines_extends m b :
  extends (scan_lines m b (getLines b)).1 b.
Proof.
  destruct (scan_lines_cases m b (getLines b))
    as [-> | (fid & _ & _ & (l & Hl & _) & ->)]; [apply extends_refl|].
  split; [done|]. cbn [fst].
  destruct (getLines_declare_frame m b fid) as (l1 & l2 & -> & _).
  exists [l1; l2]. split; [done|]. intros Hnil. rewrite Hnil in Hl.
  by apply elem_of_nil in Hl.
Qed.

Lemma set_frames_extends bs : ∀ m,
  Forall2 extends (set_frames m bs).1 bs.
Proof.
  induction bs as [|b bs IH]; intros m; cbn [set_frames]; [constructor|].
  pose proof (scan_lines_extends m b) as Hb.
  destruct (scan_lines m b (getLines b)) as [b' m'].
  specialize (IH m'). destruct (set_frames m' bs) as [bs' m''].
  by constructor.
Qed.

Lemma extends_lines_sublist bs' bs :
  Forall2 extends bs' bs → lines_of bs `sublist_of` lines_of bs'.
Proof.
  induction 1 as [|b' b bs' bs (_ & pre & Hpre & _) _ IH]; [done|].
  unfold lines_of in *. cbn [flat_map]. rewrite Hpre.
  apply sublist_app; [|done]. by apply sublist_inserts_l.
Qed.

Lemma interleave_lines_sublist bs :
  lines_of bs `sublist_of` lines_of (interleave bs).
Proof.
  induction bs as [|b bs IH]; [by apply sublist_nil_l|].
  rewrite interleave_cons. unfold lines_of in *. cbn [flat_map].
  apply sublist_inserts_l. by apply sublist_app.
Qed.

(** The blocks after the frame pass of [_postProcess]. *)
Lemma postProcess_frames_extends g :
  Forall2 extends
    (_blocks (if bool_decide (0 < size (_allFrames g))%nat
              then _postProcessSetFrames g else g))
    (_blocks g).
Proof.
  case_bool_decide.
  - unfold _postProcessSetFrames.
    pose proof (set_frames_extends (_blocks g) (_allFrames g)) as Hext.
    by destruct (set_frames (_allFrames g) (_blocks g)).
  - apply Forall_Forall2_diag, Forall_forall. intros b _.
    apply extends_refl.
Qed.

(** No pass removes or reorders a line. *)
Lemma postProcess_lines_sublist opts g :
  lines_of (_blocks g) `sublist_of` lines_of (_blocks (_postProcess opts g)).
Proof.
  pose proof (extends_lines_sublist _ _ (postProcess_frames_extends g))
    as Hsub.
  rewrite postProcess_blocks.
  set (g1 := if bool_decide _ then _ else _) in *.
  destruct (truthy (option_of opts "blankLinesBetweenBlocks")); [|done].
  destruct (_blocks g1) as [|b bs] eqn:Hbs; [done|].
  etrans; [exact Hsub|]. apply interleave_lines_sublist.
Qed.

(** ** The navigation promise *)





(** ** Counting the blocks *)

Lemma non_blank_blankLine : non_blank blankLine = false.
Proof. done. Qed.

Lemma filter_interleave bs :
  filter (λ b, non_blank b = true) (interleave bs)
  = filter (λ b, non_blank b = true) bs.
Proof.
  induction bs as [|b bs IH]; [done|].
  rewrite interleave_cons.
  rewrite (filter_cons_False _ blankLine) by by rewrite non_blank_blankLine.
  rewrite !(filter_cons _ b). by rewrite IH.
Qed.

(** A block under new lines prints text exactly when it did before, if it
    was not a block of empty lines only. *)
Lemma extends_non_blank b' b :
  extends b' b → getLines b = [] ∨ non_blank b = true →
  non_blank b' = non_blank b.
Proof.
  intros (_ & pre & Hpre & Hnil) [Hb | Hb].
  - unfold non_blank. rewrite Hpre, Hb, (Hnil Hb). done.
  - rewrite Hb. unfold non_blank in *. rewrite Hpre, forallb_app.
    apply negb_true_iff in Hb. rewrite Hb, andb_false_r. done.
Qed.

Lemma filter_extends bs' bs :
  Forall2 extends bs' bs →
  Forall (λ b, getLines b = [] ∨ non_blank b = true) bs →
  Forall2 extends (filter (λ b, non_blank b = true) bs')
                  (filter (λ b, non_blank b = true) bs).
Proof.
  induction 1 as [|b' b bs' bs Hext _ IH]; intros Hok; [constructor|].
  apply Forall_cons in Hok as [Hb Hok].
  rewrite !filter_cons, (extends_non_blank b' b Hext Hb).
  destruct (decide (non_blank b = true)); [constructor|]; auto.
Qed.

Lemma for_each_each opts events : ∀ g g',
  for_each (parse_event opts) g events = Ok g' →
  Forall (λ e, ∃ g1 g2, parse_event opts g1 e = Ok g2) events.
Proof.
  induction events as [|e events IH]; intros g g' Hrun; [constructor|].
  cbn in Hrun.
  destruct (parse_event opts g e) as [g1|] eqn:Hp; [|done].
  constructor; [by eauto | by eapply IH].
Qed.

(** The blocks of the event loop that print text are the blocks of the
    events that produce one, in order. *)
Lemma emitted_producers opts events :
  Forall (λ e, ∃ g1 g2, parse_event opts g1 e = Ok g2) events →
  Forall2 (λ b e, emitted opts e = Some b)
    (filter (λ b, non_blank b = true) (omap (emitted opts) events))
    (filter (λ e, produces_block opts e = true) events).
Proof.
  induction 1 as [|e events (g1 & g2 & Hp) _ IH]; [constructor|].
  cbn [omap list_omap]. rewrite (filter_cons _ e).
  destruct (emitted opts e) as [b|] eqn:Hem.
  - destruct (emitted_spec opts e b Hem) as (_ & _ & Hnb & _).
    rewrite (filter_cons _ b), Hnb.
    destruct (decide (produces_block opts e = true)); [constructor|]; auto.
  - rewrite (emitted_none opts g1 e g2 Hp Hem).
    by rewrite decide_False by done.
Qed.

Lemma emitted_blocks_ok opts events :
  Forall (λ b, getLines b = [] ∨ non_blank b = true)
    (omap (emitted opts) events).
Proof.
  apply Forall_forall. intros b (e & _ & Hem)%list_elem_of_omap.
  by apply emitted_spec in Hem as (_ & _ & _ & ?).
Qed.

(** Against C3 as the specification states it: the declaration block of
    the navigation promise is a block of its own, which no event
    produced. *)
Lemma declaration_block_is_extra :
  let events := [event "navigation*" JUndefined None JUndefined] in
  ∃ out g',
    _parseEvents defaults fresh events = Ok (out, g')
    ∧ length (filter (λ b, non_blank b = true) (_blocks g')) = 2%nat
    ∧ length (filter (λ e, produces_block defaults e = true) events) = 1%nat
    ∧ length (filter (λ b, non_blank b = true) (_blocks g'))
      ≠ length (filter (λ e, produces_block defaults e = true) events).
Proof.
  eexists _, _. split; [by vm_compute|]. by vm_compute.
Qed.

(** C3, amended.  For every event sequence that a new instance compiles,
    the number of blocks of the final list that print text is the number
    of events that produce a block under the dispatch rules (a submit on
    a FORM, a keydown with key code 9, a click, a change, a goto, a
    viewport, and a navigation when navigation waiting is enabled or the
    event carries a comment), plus one for the declaration block of the
    navigation promise when a navigation was seen and navigation waiting
    is enabled.  That declaration block comes first; the other blocks
    are, in the order of the events, the blocks of the events that
    produce one, each possibly under frame declaration lines. *)
Theorem block_count_and_order (opts : Options) (events : list Event.t)
    (out : string) (g' : CodeGenerator.t) :
  _parseEvents opts fresh events = Ok (out, g') →
  let producers := filter (λ e, produces_block opts e = true) events in
  let printed := filter (λ b, non_blank b = true) (_blocks g') in
  let hoisted := existsb is_navigation events
                 && truthy (option_of opts "waitForNavigation") in
  length printed = (length producers + (if hoisted then 1 else 0))%nat
  ∧ ∃ decl rest,
      printed = decl ++ rest
      ∧ Forall2 (originates opts) rest producers
      ∧ if hoisted
        then ∃ b pre fid,
               decl = [b]
               ∧ getLines b
                 = pre ++ [mkLine (Some NAVIGATION_PROMISE)
                             "const navigationPromise = page.waitForNavigation()"
                             fid]
        else decl = [].
Proof.
  intros Hparse producers printed hoisted.
  unfold _parseEvents in Hparse.
  destruct (for_each (parse_event opts) fresh events) as [g|] eqn:Hrun;
    [|done].
  cbn in Hparse. injection Hparse as _ <-.
  destruct (for_each_inv opts events fresh g Hrun) as (Hb & Hn & _).
  cbn in Hb, Hn.
  set (g0 := hoist_navigationPromise opts g) in *.
  set (head := if hoisted then [navigationPromise_block g] else []).
  assert (_blocks g0 = head ++ omap (emitted opts) events) as Hg0.
  { unfold g0, hoist_navigationPromise, head, hoisted.
    rewrite Hn, <- Hb. by destruct (_ && _). }
  (* the frame pass, then the blank lines *)
  pose proof (postProcess_frames_extends g0) as Hext.
  pose proof (postProcess_blocks opts g0) as Hpost. cbn zeta in Hpost.
  set (g1 := if bool_decide _ then _ else _) in *.
  assert (printed = filter (λ b, non_blank b = true) (_blocks g1)) as Hpr.
  { unfold printed. rewrite Hpost.
    destruct (truthy (option_of opts "blankLinesBetweenBlocks")); [|done].
    destruct (_blocks g1) as [|b bs] eqn:Hbs; [done|].
    apply filter_interleave. }
  assert (Forall (λ b, getLines b = [] ∨ non_blank b = true) (_blocks g0))
    as Hok.
  { rewrite Hg0. apply Forall_app. split; [|apply emitted_blocks_ok].
    unfold head.
    destruct hoisted; constructor; [by right | constructor]. }
  apply filter_extends in Hext; [|exact Hok].
  rewrite <- Hpr, Hg0, filter_app in Hext.
  apply Forall2_app_inv_r in Hext
    as (decl & rest & Hdecl & Hrest & Hsplit).
  pose proof (emitted_producers opts events
                (for_each_each opts events fresh g Hrun)) as Hprod.
  fold producers in Hprod.
  assert (Forall2 (originates opts) rest producers) as Horig.
  { clear -Hrest Hprod.
    revert rest Hrest.
    induction Hprod as [|b0 e bs0 es Hem _ IH]; intros rest Hrest.
    - apply Forall2_nil_inv_r in Hrest as ->. constructor.
    - apply Forall2_cons_inv_r in Hrest
        as (b & rest' & (_ & pre & Hpre & _) & Hrest' & ->).
      constructor; [|by apply IH]. by exists b0, pre. }
  assert (length decl = if hoisted then 1%nat else 0%nat) as Hlen.
  { apply Forall2_length in Hdecl. rewrite Hdecl. unfold head.
    by destruct hoisted. }
  split.
  - rewrite Hsplit, length_app, Hlen.
    apply Forall2_length in Horig. lia.
  - exists decl, rest. split; [exact Hsplit|]. split; [exact Horig|].
    unfold head in Hdecl. destruct hoisted.
    + rewrite filter_cons_True in Hdecl by done.
      apply Forall2_cons_inv_r in Hdecl
        as (b & tl & (_ & pre & Hpre & _) & Htl & ->).
      apply Forall2_nil_inv_r in Htl as ->.
      by exists b, pre, (Some (_frameId g)).
    + by apply Forall2_nil_inv_r in Hdecl.
Qed.

Lemma block_count_and_order_witness :
  let events :=
    [event "click" (JStr "#go") (Some 4) (JStr "https://f/");
     event "keyup" (JStr "#go") None JUndefined;
     event "navigation*" JUndefined None JUndefined] in
  ∃ out g',
    _parseEvents defaults fresh events = Ok (out, g')
    ∧ length (filter (λ b, non_blank b = true) (_blocks g')) = 3%nat.
Proof.
  intros events.
  assert (∃ r, _parseEvents defaults fresh events = Ok r) as [[out g'] Hrun].
  { eexists. by vm_compute. }
  exists out, g'. split; [exact Hrun|].
  exact (proj1 (block_count_and_order defaults events out g' Hrun)).
Defined.

(** ** Frame declarations *)

Lemma references_uniform b z fid :
  uniform b z → references b fid ↔ getLines b ≠ [] ∧ fid = z.
Proof.
  intros [_ Hall]. unfold references. split.
  - intros (l & Hin & Hl). split.
    + intros Hnil. rewrite Hnil in Hin. by apply elem_of_nil in Hin.
    + rewrite Forall_forall in Hall. specialize (Hall l Hin). congruence.
  - intros [Hne ->]. destruct (getLines b) as [|l ls]; [done|].
    exists l. split; [apply elem_of_cons; by left|].
    by apply Forall_cons in Hall as [? _].
Qed.

Lemma references_dec bs fid :
  Forall (λ b, ∃ z, uniform b z) bs →
  (∃ b, b ∈ bs ∧ references b fid) ∨ ¬ (∃ b, b ∈ bs ∧ references b fid).
Proof.
  induction 1 as [|b bs [z Hu] _ [IH | IH]].
  - right. intros (b & Hin & _). by apply elem_of_nil in Hin.
  - left. destruct IH as (b' & Hin & Hr). exists b'.
    split; [apply elem_of_cons; by right | done].
  - destruct (getLines b) as [|l ls] eqn:Hls.
    + right. intros (b' & [-> | Hin]%elem_of_cons & Hr).
      * apply (references_uniform _ _ _ Hu) in Hr as [Hne _]. done.
      * apply IH. by exists b'.
    + destruct (decide (fid = z)) as [->|Hz].
      * left. exists b. split; [apply elem_of_cons; by left|].
        apply (references_uniform _ _ _ Hu). by rewrite Hls.
      * right. intros (b' & [-> | Hin]%elem_of_cons & Hr).
        -- apply (references_uniform _ _ _ Hu) in Hr as [_ ?]. done.
        -- apply IH. by exists b'.
Qed.

(** On a block whose lines all belong to the frame [z], the inner loop
    looks at the first line only. *)
Lemma scan_lines_uniform m b z lines :
  Forall (λ l, frameId l = Some z) lines →
  scan_lines m b lines
  = if bool_decide (lines ≠ [] ∧ z ≠ 0 ∧ frame_key z ∈ dom m)
    then (declare_frame m b z, delete (frame_key z) m)
    else (b, m).
Proof.
  induction 1 as [|l lines Hl _ IH].
  - rewrite bool_decide_false; [done | by intros [? _]].
  - cbn [scan_lines]. rewrite Hl.
    destruct (Z.eqb_spec z 0) as [->|Hz]; cbn [negb andb].
    + rewrite IH.
      by rewrite !bool_decide_false by (intros (_ & ? & _); congruence).
    + destruct (decide (frame_key z ∈ dom m)) as [Hdom|Hdom].
      * by rewrite !bool_decide_true.
      * rewrite (bool_decide_false _ Hdom), IH.
        by rewrite !bool_decide_false by (intros (_ & _ & ?); done).
Qed.

Lemma declare_frame_delete m b fid k :
  k ≠ frame_key fid →
  declare_frame (delete k m) b fid = declare_frame m b fid.
Proof. intros Hk. unfold declare_frame. by rewrite lookup_delete_ne. Qed.

Lemma set_frames_length bs m : length (set_frames m bs).1 = length bs.
Proof.
  exact (Forall2_length _ _ _ (set_frames_extends bs m)).
Qed.

Lemma set_frames_cons m b bs :
  set_frames m (b :: bs)
  = let r := scan_lines m b (getLines b) in
    (r.1 :: (set_frames r.2 bs).1, (set_frames r.2 bs).2).
Proof.
  cbn [set_frames]. destruct (scan_lines m b (getLines b)) as [b' m'].
  cbn [fst snd]. by destruct (set_frames m' bs).
Qed.

(** The first block with a line of a pending frame gets the declaration
    of that frame. *)
Lemma set_frames_first bs : ∀ m (i : nat) b fid,
  Forall (λ b, ∃ z, uniform b z) bs →
  bs !! i = Some b → references b fid → fid ≠ 0 →
  frame_key fid ∈ dom m →
  (∀ (j : nat) b', (j < i)%nat → bs !! j = Some b' → ¬ references b' fid) →
  (set_frames m bs).1 !! i = Some (declare_frame m b fid).
Proof.
  induction bs as [|b0 bs IH]; intros m i b fid Hwf Hi Href Hfid Hdom Hfirst;
    [done|].
  apply Forall_cons in Hwf as [[z0 Hu0] Hwf].
  rewrite set_frames_cons. cbn zeta. cbn [fst].
  rewrite (scan_lines_uniform m b0 z0) by apply Hu0.
  destruct i as [|i].
  - injection Hi as ->.
    apply (references_uniform _ _ _ Hu0) in Href as [Hne ->].
    by rewrite bool_decide_true.
  - cbn in Hi. cbn [lookup list_lookup].
    assert (¬ references b0 fid) as Hb0
      by (apply (Hfirst 0%nat); [lia | done]).
    assert (∀ (j : nat) b', (j < i)%nat → bs !! j = Some b' →
              ¬ references b' fid) as Hfirst'.
    { intros j b' Hj Hb'. apply (Hfirst (S j)); [lia | done]. }
    case_bool_decide as Htrig; cbn [fst snd].
    + destruct Htrig as (Hne & _ & _).
      assert (z0 ≠ fid) as Hz.
      { intros ->. apply Hb0, (references_uniform _ _ _ Hu0). done. }
      assert (frame_key z0 ≠ frame_key fid) as Hk
        by (intros ?%frame_key_inj; done).
      rewrite (IH _ i b fid Hwf Hi Href Hfid); [| |exact Hfirst'].
      * by rewrite declare_frame_delete.
      * apply elem_of_dom. rewrite lookup_delete_ne by done.
        by apply elem_of_dom.
    + by apply IH.
Qed.

(** A block without a line of a frame that is still pending stays as it
    is. *)
Lemma set_frames_other bs : ∀ m (i : nat) b,
  Forall (λ b, ∃ z, uniform b z) bs →
  bs !! i = Some b →
  (∀ fid, references b fid →
     fid = 0 ∨ frame_key fid ∉ dom m
     ∨ ∃ (j : nat) b', (j < i)%nat ∧ bs !! j = Some b'
                       ∧ references b' fid) →
  (set_frames m bs).1 !! i = Some b.
Proof.
  induction bs as [|b0 bs IH]; intros m i b Hwf Hi Hnot; [done|].
  apply Forall_cons in Hwf as [[z0 Hu0] Hwf].
  rewrite set_frames_cons. cbn zeta. cbn [fst].
  rewrite (scan_lines_uniform m b0 z0) by apply Hu0.
  destruct i as [|i].
  - injection Hi as ->. cbn [lookup list_lookup].
    rewrite bool_decide_false; [done|]. intros (Hne & Hz & Hdom).
    destruct (Hnot z0) as [? | [? | (j & _ & ? & _)]]; [|done..|lia].
    by apply (references_uniform _ _ _ Hu0).
  - cbn in Hi. cbn [lookup list_lookup].
    case_bool_decide as Htrig; cbn [fst snd]; apply IH; try done.
    + intros fid Href.
      destruct (Hnot fid Href) as [? | [Hd | (j & b' & Hj & Hb' & Hr)]];
        [by left| |].
      * right; left. rewrite dom_delete_L.
        by intros [? _]%elem_of_difference.
      * destruct j as [|j].
        -- injection Hb' as <-. right; left.
           apply (references_uniform _ _ _ Hu0) in Hr as [_ ->].
           rewrite dom_delete_L. intros [_ Hn]%elem_of_difference.
           apply Hn. by apply elem_of_singleton.
        -- right; right. exists j, b'. split; [lia | done].
    + intros fid Href.
      destruct (Hnot fid Href) as [? | [Hd | (j & b' & Hj & Hb' & Hr)]];
        [by left | by right; left |].
      destruct j as [|j].
      * injection Hb' as <-.
        pose proof Hr as [Hne ->]%(references_uniform _ _ _ Hu0).
        destruct (decide (z0 = 0)) as [?|Hz0]; [by left|].
        right; left. intros Hd. apply Htrig. done.
      * right; right. exists j, b'. split; [lia | done].
Qed.

(** The pending map after the pass: the frames that a block has a line
    of are gone, the others are as before. *)
Lemma set_frames_pending bs : ∀ m fid,
  Forall (λ b, ∃ z, uniform b z) bs →
  fid ≠ 0 →
  ((∃ b, b ∈ bs ∧ references b fid) →
   (set_frames m bs).2 !! frame_key fid = None)
  ∧ ((¬ ∃ b, b ∈ bs ∧ references b fid) →
     (set_frames m bs).2 !! frame_key fid = m !! frame_key fid).
Proof.
  induction bs as [|b0 bs IH]; intros m fid Hwf Hfid.
  { split; [|done]. intros (b & Hin & _). by apply elem_of_nil in Hin. }
  apply Forall_cons in Hwf as [[z0 Hu0] Hwf].
  rewrite set_frames_cons. cbn zeta. cbn [snd].
  rewrite (scan_lines_uniform m b0 z0) by apply Hu0.
  pose proof (references_uniform b0 z0 fid Hu0) as Href0.
  assert ((set_frames m bs).2 !! frame_key fid = None
          ∨ (set_frames m bs).2 !! frame_key fid = m !! frame_key fid)
    as Hsub.
  { destruct (IH m fid Hwf Hfid) as [H1 H2].
    destruct (references_dec bs fid Hwf); auto. }
  case_bool_decide as Htrig; cbn [snd].
  - destruct Htrig as (Hne & Hz0 & Hdom0).
    destruct (IH (delete (frame_key z0) m) fid Hwf Hfid) as [H1 H2].
    destruct (decide (z0 = fid)) as [->|Hz].
    + split; [|intros Hno; destruct Hno; exists b0;
                 split; [apply elem_of_cons; by left | by apply Href0]].
      intros _.
      destruct (references_dec bs fid Hwf) as [Hex|Hno];
        [by apply H1|].
      rewrite (H2 Hno). apply lookup_delete_eq.
    + assert (frame_key z0 ≠ frame_key fid) as Hk
        by (intros ?%frame_key_inj; done).
      split.
      * intros (b & [-> | Hin]%elem_of_cons & Hr).
        -- apply Href0 in Hr as [_ ->]. done.
        -- apply H1. by exists b.
      * intros Hno. rewrite H2, lookup_delete_ne; [done..|].
        intros (b & Hin & Hr). apply Hno. exists b.
        split; [apply elem_of_cons; by right | done].
  - destruct (IH m fid Hwf Hfid) as [H1 H2]. split.
    + intros (b & [-> | Hin]%elem_of_cons & Hr).
      * apply Href0 in Hr as [Hne ->].
        assert (m !! frame_key z0 = None) as Hm.
        { apply not_elem_of_dom. intros Hd. by apply Htrig. }
        destruct Hsub as [-> | ->]; done.
      * apply H1. by exists b.
    + intros Hno. apply H2. intros (b & Hin & Hr). apply Hno. exists b.
      split; [apply elem_of_cons; by right | done].
Qed.

Lemma scan_lines_empty b lines : scan_lines ∅ b lines = (b, ∅).
Proof.
  induction lines as [|l lines IH]; [done|]. cbn [scan_lines].
  destruct (frameId l) as [fid|]; [|done].
  rewrite bool_decide_false, andb_false_r; [done|].
  rewrite dom_empty_L. apply not_elem_of_empty.
Qed.

Lemma set_frames_empty bs : set_frames ∅ bs = (bs, ∅).
Proof.
  induction bs as [|b bs IH]; [done|].
  by rewrite set_frames_cons, scan_lines_empty; cbn; rewrite IH.
Qed.

(** The guard of [_postProcess] skips the pass only when the pass would
    change nothing. *)
Lemma postProcessSetFrames_guard g :
  (if bool_decide (0 < size (_allFrames g))%nat
   then _postProcessSetFrames g else g)
  = _postProcessSetFrames g.
Proof.
  case_bool_decide as Hsize; [done|].
  assert (_allFrames g = ∅) as Hm by (apply map_size_empty_iff; lia).
  unfold _postProcessSetFrames. rewrite Hm, set_frames_empty.
  destruct g; cbn in *. by rewrite Hm.
Qed.

Lemma emitted_uniform opts e b :
  emitted opts e = Some b → uniform b (frame_of e).
Proof.
  intros (Hfid & Hlines & _)%emitted_spec. split; [done|].
  eapply Forall_impl; [exact Hlines|]. by intros l (? & _).
Qed.

(** After the event loop of a new instance, the frame of every event
    that comes from a frame other than the page is pending. *)
Lemma for_each_pending opts events g e :
  for_each (parse_event opts) fresh events = Ok g →
  e ∈ events → frame_of e ≠ 0 →
  is_Some (_allFrames g !! frame_key (frame_of e)).
Proof.
  intros Hrun Hin Hfid.
  rewrite (for_each_allFrames opts events fresh g _ Hrun Hfid).
  assert (Event.frameId e = Some (frame_of e)) as He.
  { unfold frame_of in *. by destruct (Event.frameId e). }
  assert (e ∈ filter (λ e', Event.frameId e' = Some (frame_of e)) events)
    as Hf by (by apply list_elem_of_filter).
  destruct (filter _ events) as [|e1 l] eqn:Hl using rev_ind.
  - by apply elem_of_nil in Hf.
  - rewrite last_snoc. by eexists.
Qed.

(** The blocks that the frame pass of a new instance gets: every block
    has lines of one frame only, and that frame is pending if it is not
    the page. *)
Lemma hoisted_blocks opts events g :
  for_each (parse_event opts) fresh events = Ok g →
  let g0 := hoist_navigationPromise opts g in
  _allFrames g0 = _allFrames g
  ∧ Forall (λ b, ∃ z, uniform b z) (_blocks g0)
  ∧ ∀ b fid, b ∈ _blocks g0 → references b fid → fid ≠ 0 →
             is_Some (_allFrames g !! frame_key fid).
Proof.
  intros Hrun g0.
  destruct (for_each_inv opts events fresh g Hrun) as (Hb & _ & Hi).
  cbn in Hb, Hi.
  assert (∀ b, b ∈ _blocks g → ∃ e, e ∈ events ∧ uniform b (frame_of e))
    as Hev.
  { intros b. rewrite Hb. intros (e & He & Hem)%list_elem_of_omap.
    exists e. split; [done|]. by eapply emitted_uniform. }
  assert (uniform (navigationPromise_block g) (_frameId g)) as Hnav.
  { split; [done|]. by repeat constructor. }
  assert (∀ b, b ∈ _blocks g0 →
            b ∈ _blocks g ∨ b = navigationPromise_block g) as Hin0.
  { intros b. unfold g0, hoist_navigationPromise.
    destruct (_ && _); [|by left]. cbn.
    intros [-> | ?]%elem_of_cons; [by right | by left]. }
  split; [|split].
  - unfold g0, hoist_navigationPromise. by destruct (_ && _).
  - apply Forall_forall. intros b [Hin | ->]%Hin0; [|by eexists].
    destruct (Hev b Hin) as (e & _ & Hu). by eexists.
  - intros b fid [Hin | ->]%Hin0 Href Hfid.
    + destruct (Hev b Hin) as (e & He & Hu).
      apply (references_uniform _ _ _ Hu) in Href as [_ ->].
      by eapply for_each_pending.
    + apply (references_uniform _ _ _ Hnav) in Href as [_ ->].
      rewrite Hi in Hfid |- *.
      destruct (last events) as [e|] eqn:Hlast; [|done]. cbn in *.
      eapply for_each_pending; [done| |done].
      apply last_Some in Hlast as [l ->].
      apply elem_of_app. right. apply elem_of_cons. by left.
Qed.

(** C1. Frame-declaration hoisting: on the blocks of any event sequence
    compiled by a new instance, the pass (which [_postProcess] skips only
    when no frame is pending and the pass would change nothing) keeps the
    blocks in place and puts, on top of the first block that has a line
    of a frame other than the page, the line fetching the frame list and
    then the line resolving [frame_<id>] by equality with the URL
    recorded for that frame; every other block stays as it is, so a frame
    is declared once; a declared frame is no longer pending afterwards,
    and a frame with no line stays pending.  Four clicks from the frames
    0, 3, 3 and 5 get two declarations: one on the first block of frame 3
    and one on the block of frame 5. *)
Theorem frame_declaration_hoisting (opts : Options)
    (events : list Event.t) (g : CodeGenerator.t) :
  for_each (parse_event opts) fresh events = Ok g →
  let g0 := hoist_navigationPromise opts g in
  let blocks := _blocks g0 in
  let g1 := _postProcessSetFrames g0 in
  (if bool_decide (0 < size (_allFrames g0))%nat
   then _postProcessSetFrames g0 else g0) = g1
  ∧ length (_blocks g1) = length blocks
  ∧ (∀ (i : nat) b fid,
       blocks !! i = Some b → references b fid → fid ≠ 0 →
       (∀ (j : nat) b', (j < i)%nat → blocks !! j = Some b' →
                        ¬ references b' fid) →
       ∃ url b1,
         _allFrames g !! frame_key fid = Some url
         ∧ _blocks g1 !! i = Some b1
         ∧ Block._frameId b1 = Block._frameId b
         ∧ getLines b1
           = mkLine (Some FRAME_SET) "let frames = await page.frames()"
               (Some fid)
             :: mkLine (Some FRAME_SET)
                  ("const frame_" +:+ pretty fid
                   +:+ " = frames.find(f => f.url() === '"
                   +:+ to_string url +:+ "')")
                  (Some fid)
             :: getLines b)
  ∧ (∀ (i : nat) b,
       blocks !! i = Some b →
       (∀ fid, references b fid →
          fid = 0 ∨ ∃ (j : nat) b', (j < i)%nat ∧ blocks !! j = Some b'
                                    ∧ references b' fid) →
       _blocks g1 !! i = Some b)
  ∧ (∀ fid, fid ≠ 0 →
       ((∃ b, b ∈ blocks ∧ references b fid) →
        _allFrames g1 !! frame_key fid = None)
       ∧ ((¬ ∃ b, b ∈ blocks ∧ references b fid) →
          _allFrames g1 !! frame_key fid = _allFrames g !! frame_key fid))
  ∧ (let clicks :=
       [event "click" (JStr "#a") (Some 0) (JStr "https://top.example/");
        event "click" (JStr "#b") (Some 3) (JStr "https://three.example/");
        event "click" (JStr "#c") (Some 3) (JStr "https://three.example/");
        event "click" (JStr "#d") (Some 5) (JStr "https://five.example/")] in
     ∃ g2,
       for_each (parse_event defaults) fresh clicks = Ok g2
       ∧ (λ b, value <$> getLines b)
           <$> _blocks (_postProcessSetFrames
                          (hoist_navigationPromise defaults g2))
         = [["await page.waitForSelector('#a')";
             "await page.click('#a')"];
            ["let frames = await page.frames()";
             "const frame_3 = frames.find(f => f.url() === 'https://three.example/')";
             "await frame_3.waitForSelector('#b')";
             "await frame_3.click('#b')"];
            ["await frame_3.waitForSelector('#c')";
             "await frame_3.click('#c')"];
            ["let frames = await page.frames()";
             "const frame_5 = frames.find(f => f.url() === 'https://five.example/')";
             "await frame_5.waitForSelector('#d')";
             "await frame_5.click('#d')"]]).
Proof.
  intros Hrun g0 blocks g1.
  destruct (hoisted_blocks opts events g Hrun) as (Hm & Hwf & Hpend).
  fold g0 in Hm, Hwf, Hpend. fold blocks in Hwf, Hpend.
  assert (_blocks g1 = (set_frames (_allFrames g) blocks).1
          ∧ _allFrames g1 = (set_frames (_allFrames g) blocks).2)
    as [Hb1 Hm1].
  { unfold g1, _postProcessSetFrames. rewrite Hm. fold blocks.
    by destruct (set_frames (_allFrames g) blocks). }
  split; [apply postProcessSetFrames_guard|].
  rewrite Hb1, Hm1.
  split; [apply set_frames_length|]. split; [|split; [|split]].
  - intros i b fid Hi Href Hfid Hfirst.
    destruct (Hpend b fid) as [url Hurl];
      [by eapply list_elem_of_lookup_2 | done..|].
    exists url, (declare_frame (_allFrames g) b fid).
    split; [exact Hurl|]. split.
    + apply set_frames_first; try done. apply elem_of_dom. by eexists.
    + split; [done|]. unfold declare_frame. rewrite Hurl. cbn.
      rewrite Forall_forall in Hwf.
      destruct (Hwf b) as [z Hu]; [by eapply list_elem_of_lookup_2|].
      apply (references_uniform _ _ _ Hu) in Href as [_ ->].
      by rewrite (proj1 Hu).
  - intros i b Hi Hnot. apply set_frames_other; try done.
    intros fid Href. destruct (Hnot fid Href) as [? | ?]; auto.
  - intros fid Hfid. by apply set_frames_pending.
  - eexists. split; [by vm_compute|]. by vm_compute.
Qed.

Lemma frame_declaration_hoisting_witness :
  let events :=
    [event "click" (JStr "#a") None JUndefined;
     event "change" (JStr "#b") (Some 3) (JStr "https://three.example/")] in
  ∃ g,
    for_each (parse_event defaults) fresh events = Ok g
    ∧ length (_blocks (_postProcessSetFrames
                         (hoist_navigationPromise defaults g))) = 2%nat.
Proof.
  intros events.
  assert (∃ g, for_each (parse_event defaults) fresh events = Ok g)
    as [g Hrun].
  { eexists. by vm_compute. }
  exists g. split; [exact Hrun|].
  rewrite (proj1 (proj2 (frame_declaration_hoisting defaults events g Hrun))).
  destruct (for_each_inv defaults events fresh g Hrun) as (Hb & Hn & _).
  assert (_hasNavigation g = false) as Hfalse by (rewrite Hn; by vm_compute).
  unfold hoist_navigationPromise.
  rewrite Hfalse. cbn [andb]. rewrite Hb. by vm_compute.
Defined.

(** * Further properties of the generator *)

(** ** Options *)

(** X1. What an instance reads under an option key after two
    constructions in a row: the value the later constructor was given,
    else the value the earlier constructor was given, else what the
    shared object held before; an option given once stays until a later
    constructor overrides it. *)
Theorem constructor_options_accumulate (σ : Store) (o1 o2 : Options)
    (k : string) :
  let σ1 := (constructor o1 σ).1 in
  let σ2 := (constructor o2 σ1).1 in
  option_of (store_defaults σ2) k
  = match o2 !! k with
    | Some v => v
    | None => match o1 !! k with
              | Some v => v
              | None => option_of (store_defaults σ) k
              end
    end.
Proof.
  cbn. unfold Object_assign, option_of. rewrite !lookup_union.
  destruct (o2 !! k), (o1 !! k), (store_defaults σ !! k); done.
Qed.

(** X2. Options that repeat what the shared object already holds change
    nothing: the store and the script are those of a construction with
    an empty options object.  So compiling with the explicit defaults in
    the initial store is compiling with no options. *)
Theorem options_within_defaults (σ : Store) (options : Options)
    (events : list Event.t) :
  options ⊆ store_defaults σ →
  compile options events σ = compile ∅ events σ
  ∧ (compile options events σ).1 = σ.
Proof.
  intros Hsub. unfold compile, constructor, Object_assign.
  rewrite (map_subseteq_union _ _ Hsub), (left_id_L ∅ (∪)).
  by destruct σ.
Qed.

Lemma options_within_defaults_witness :
  let click := event "click" (JStr "#go") None JUndefined in
  compile defaults [click] initial_store = compile ∅ [click] initial_store
  ∧ compile (<["headless" := JBool true]> ∅) [click] initial_store
    = compile ∅ [click] initial_store.
Proof.
  intros click. split.
  - apply (options_within_defaults initial_store defaults [click]).
    reflexivity.
  - apply (options_within_defaults initial_store
             (<["headless" := JBool true]> ∅) [click]).
    apply insert_subseteq_l; [reflexivity | apply map_empty_subseteq].
Defined.

Lemma for_each_ext {S E} (f1 f2 : S → E → Result S) (l : list E) :
  (∀ s e, f1 s e = f2 s e) → ∀ s, for_each f1 s l = for_each f2 s l.
Proof.
  intros Hf. induction l as [|e l IH]; intros s; cbn; [done|].
  rewrite Hf. destruct (f2 s e); cbn; [apply IH | done].
Qed.

(** X12. The generator reads six keys of the options object and nothing
    else: two options objects that agree on [wrapAsync], [headless],
    [waitForNavigation], [waitForSelectorOnClick],
    [blankLinesBetweenBlocks] and [customLineAfterClick] give the same
    script and the same instance; so setting any other key, such as
    [dataAttribute], changes nothing. *)
Theorem only_six_options_matter (o1 o2 : Options) (g : CodeGenerator.t)
    (events : list Event.t) :
  (agree o1 o2 → generate o1 g events = generate o2 g events)
  ∧ (∀ (k : string) (v : jsval),
       k ∉ used_options →
       generate (<[k := v]> o1) g events = generate o1 g events).
Proof.
  assert (∀ o1 o2, agree o1 o2 →
            generate o1 g events = generate o2 g events) as Hagree.
  { clear o1 o2. intros o1 o2 Hag. unfold agree, used_options in Hag.
    repeat (apply Forall_cons in Hag as [? Hag]).
    assert (∀ g e, parse_event o1 g e = parse_event o2 g e) as Hstep.
    { intros g0 e. unfold parse_event, dispatch, _handleClick,
        _handleWaitForNavigation. by repeat match goal with
        | H : option_of o1 _ = _ |- _ => rewrite !H; clear H end. }
    unfold generate, _parseEvents, _getHeader, _getFooter,
      hoist_navigationPromise, _postProcess.
    rewrite (for_each_ext _ _ events Hstep).
    by repeat match goal with
       | H : option_of o1 _ = _ |- _ => rewrite !H; clear H end. }
  split; [apply Hagree|].
  intros k v Hk. apply Hagree. unfold agree. apply Forall_forall.
  intros k' Hk'. unfold option_of. rewrite lookup_insert_ne; [done|].
  by intros ->.
Qed.

Lemma only_six_options_matter_witness :
  let click := event "click" (JStr "#go") None JUndefined in
  generate (<["dataAttribute" := JStr "data-test"]> defaults) fresh [click]
  = generate defaults fresh [click].
Proof.
  intros click.
  apply (only_six_options_matter defaults defaults fresh [click]).
  vm_compute. intros H.
  repeat (apply elem_of_cons in H as [H | H]; [discriminate|]).
  by apply elem_of_nil in H.
Defined.

(** ** The layout of the script *)

(** X3. The script is the import line, the header, the lines of the
    final blocks in order, each after the indent and before one newline,
    and the footer.  With [wrapAsync] the header opens the asynchronous
    function and header, lines and footer are indented by two spaces;
    without [headless] the launch call, and nothing else, is rewritten to
    ask for a visible browser. *)
Theorem script_layout (opts : Options) (g g' : CodeGenerator.t)
    (events : list Event.t) (out : string) :
  generate opts g events = Ok (out, g') →
  let wrap := truthy (option_of opts "wrapAsync") in
  let indent := if wrap then "  " else "" in
  let launch := if truthy (option_of opts "headless")
                then "puppeteer.launch()"
                else "puppeteer.launch({ headless: false })" in
  out = ("const puppeteer = require('puppeteer');" +:+ newLine)
        +:+ ((if wrap then "(async () => {" +:+ newLine else "")
             +:+ indent +:+ "const browser = await " +:+ launch +:+ newLine
             +:+ indent +:+ "const page = await browser.newPage()"
             +:+ (if wrap then newLine else ""))
        +:+ print_lines indent (lines_of (_blocks g'))
        +:+ (indent +:+ "await browser.close()"
             +:+ (if wrap then newLine +:+ "})()" else "")).
Proof.
  intros Hgen wrap indent launch. unfold generate in Hgen.
  destruct (_parseEvents opts g events) as [[body g1]|] eqn:Hparse;
    [|done].
  cbn in Hgen. injection Hgen as <- <-.
  unfold _parseEvents in Hparse.
  destruct (for_each (parse_event opts) g events) as [g2|]; [|done].
  cbn in Hparse. injection Hparse as <- <-.
  rewrite print_blocks_lines. fold wrap. fold indent.
  f_equal. f_equal; [|f_equal].
  - unfold _getHeader. fold wrap. subst indent launch.
    by destruct wrap, (truthy (option_of opts "headless")); vm_compute.
  - unfold _getFooter. fold wrap. subst indent.
    by destruct wrap; vm_compute.
Qed.

Lemma script_layout_witness :
  ∃ out g',
    generate (<["wrapAsync" := JBool false]> ∅) fresh
      [event "goto*" JUndefined None JUndefined] = Ok (out, g')
    ∧ out = ("const puppeteer = require('puppeteer');" +:+ newLine)
            +:+ ("const browser = await puppeteer.launch({ headless: false })"
                 +:+ newLine +:+ "const page = await browser.newPage()")
            +:+ ("await page.goto('undefined')" +:+ newLine)
            +:+ "await browser.close()".
Proof.
  assert (∃ r, generate (<["wrapAsync" := JBool false]> ∅) fresh
                 [event "goto*" JUndefined None JUndefined] = Ok r)
    as [[out g'] Hgen].
  { eexists. by vm_compute. }
  exists out, g'. split; [exact Hgen|].
  rewrite (script_layout _ _ _ _ _ Hgen).
  assert (lines_of (_blocks g')
          = [mkLine (Some GOTO) "await page.goto('undefined')" (Some 0)])
    as ->.
  { vm_compute in Hgen. by injection Hgen as _ <-. }
  by vm_compute.
Defined.

(** ** Events that cannot be read *)

Lemma parse_event_unreadable (opts : Options) (g : CodeGenerator.t)
    (e : Event.t) :
  viewport_has_value e = false → parse_event opts g e = Throw TypeError.
Proof.
  unfold viewport_has_value. intros Hv.
  apply orb_false_elim in Hv as [Hact Hval].
  apply negb_false_iff, is_string_true in Hact.
  unfold parse_event, dispatch. rewrite Hact. cbn.
  by destruct (Event.value e).
Qed.

Lemma for_each_throws (opts : Options) (events : list Event.t) :
  Exists (λ e, viewport_has_value e = false) events →
  ∀ g, for_each (parse_event opts) g events = Throw TypeError.
Proof.
  induction events as [|e events IH]; intros Hex g.
  - by apply Exists_nil in Hex.
  - cbn. destruct (viewport_has_value e) eqn:Hv.
    + destruct (parse_event_readable opts g e Hv) as [g1 ->]. cbn.
      apply IH. apply Exists_cons in Hex as [He | Hex]; [congruence | done].
    + by rewrite (parse_event_unreadable opts g e Hv).
Qed.

Lemma readable_or_not (events : list Event.t) :
  Forall (λ e, viewport_has_value e = true) events
  ∨ Exists (λ e, viewport_has_value e = false) events.
Proof.
  induction events as [|e events [IH | IH]].
  - left. constructor.
  - destruct (viewport_has_value e) eqn:Hv.
    + left. by constructor.
    + right. by apply Exists_cons_hd.
  - right. by apply Exists_cons_tl.
Qed.

Lemma generate_throws_iff_aux (opts : Options) (g : CodeGenerator.t)
    (events : list Event.t) :
  (Exists (λ e, viewport_has_value e = false) events →
   generate opts g events = Throw TypeError)
  ∧ (Forall (λ e, viewport_has_value e = true) events →
     ∃ out g', generate opts g events = Ok (out, g')).
Proof.
  split.
  - intros Hex. unfold generate, _parseEvents.
    by rewrite (for_each_throws opts events Hex g).
  - intros Hall. destruct (for_each_readable opts events Hall g) as [g1 Hg1].
    unfold generate, _parseEvents. rewrite Hg1. cbn. eauto.
Qed.

(** X6. When compilation fails, and only then: on a sequence in which no
    value that is spliced into a statement, a comment or a frame
    declaration is an object with an own property [toString] or
    [valueOf], [generate] throws, a [TypeError], exactly when some [viewport*]
    event of the sequence has no value ([undefined] or [null]),
    whatever the options; otherwise it returns a script. *)
Theorem generate_throws_iff (opts : Options) (g : CodeGenerator.t)
    (events : list Event.t) :
  map_Forall (λ _ url, stringifies url = true) (_allFrames g) →
  forallb (λ e, forallb stringifies (spliced opts e)) events = true →
  (generate opts g events = Throw TypeError
   ↔ Exists (λ e, viewport_has_value e = false) events)
  ∧ ((∃ out g', generate opts g events = Ok (out, g'))
     ↔ Forall (λ e, viewport_has_value e = true) events).
Proof.
  intros _ _.
  assert (Forall (λ e, viewport_has_value e = true) events →
          ∃ out g', generate opts g events = Ok (out, g')) as Hok.
  { intros Hall. destruct (for_each_readable opts events Hall g) as [g1 Hg1].
    unfold generate, _parseEvents. rewrite Hg1. cbn. eauto. }
  assert (Exists (λ e, viewport_has_value e = false) events →
          generate opts g events = Throw TypeError) as Hthrow.
  { intros Hex. unfold generate, _parseEvents.
    by rewrite (for_each_throws opts events Hex g). }
  split; split; [|done| |done].
  - intros Hgen. destruct (readable_or_not events) as [Hall | Hex]; [|done].
    destruct (Hok Hall) as (out & g' & Hrun). congruence.
  - intros (out & g' & Hrun).
    destruct (readable_or_not events) as [Hall | Hex]; [done|].
    rewrite (Hthrow Hex) in Hrun. discriminate.
Qed.

Lemma generate_throws_iff_witness :
  let click := event "click" (JStr "#go") (Some 3)
                 (JStr "https://example.org/") in
  let resize := event "viewport*" JUndefined None JUndefined in
  generate defaults fresh [click; resize] = Throw TypeError
  ∧ ∃ out g', generate defaults fresh [click] = Ok (out, g').
Proof.
  intros click resize. split.
  - apply (generate_throws_iff defaults fresh [click; resize]);
      [apply map_Forall_empty | by vm_compute |].
    apply Exists_cons_tl, Exists_cons_hd. reflexivity.
  - apply (generate_throws_iff defaults fresh [click]);
      [apply map_Forall_empty | by vm_compute |].
    apply Forall_cons_2; [reflexivity | apply Forall_nil_2].
Defined.

(** ** The event loop, event by event *)

Lemma last_lines_of_snoc (blocks : list Block.t) (b : Block.t) (l : Line) :
  last (getLines b) = Some l → last (lines_of (blocks ++ [b])) = Some l.
Proof.
  intros Hl. unfold lines_of. rewrite flat_map_app. cbn.
  rewrite app_nil_r.
  destruct (getLines b) as [|l0 ls] eqn:Hb using rev_ind; [done|].
  rewrite last_snoc in Hl. injection Hl as ->.
  by rewrite (assoc_L (++)), last_snoc.
Qed.

Lemma last_handleComments (b : Block.t) (comments : jsval) (l : Line) :
  last (getLines b) = Some l →
  last (getLines (_handleComments b comments)) = Some l.
Proof.
  unfold _handleComments. destruct (truthy comments); [|done].
  destruct b as [fid ls]. cbn. intros Hl.
  destruct ls as [|l0 ls]; [done|]. by rewrite last_cons, Hl.
Qed.

(** X4. Comment attachment: an event with a comment appends the block
    that the same event without comment appends, under one more first
    line, the comment between [/**] and [*/]; it appends no block when
    the event without comment appends none.  A comment that is absent or
    empty adds nothing. *)
Theorem comment_attachment (opts : Options) (g g' : CodeGenerator.t)
    (e : Event.t) :
  parse_event opts g e = Ok g' →
  ∃ g0,
    parse_event opts g (without_comments e) = Ok g0
    ∧ (_blocks g0 = _blocks g → _blocks g' = _blocks g)
    ∧ (∀ b0, _blocks g0 = _blocks g ++ [b0] →
         _blocks g'
         = _blocks g
           ++ [if truthy (Event.comments e)
               then Block.mk (Block._frameId b0)
                      (mkLine None
                         ("/** " +:+ to_string (Event.comments e) +:+ " */")
                         (Block._frameId b0) :: getLines b0)
               else b0]).
Proof.
  unfold parse_event.
  change (Event.frameId (without_comments e)) with (Event.frameId e).
  change (Event.frameUrl (without_comments e)) with (Event.frameUrl e).
  set (g1 := _setFrames g (Event.frameId e) (Event.frameUrl e)).
  change (dispatch opts g1 (without_comments e)) with (dispatch opts g1 e).
  pose proof (setFrames_blocks g (Event.frameId e) (Event.frameUrl e))
    as Hbl. fold g1 in Hbl.
  destruct (dispatch opts g1 e) as [[newBlock g2]|] eqn:Hd; [|done].
  apply dispatch_state in Hd. cbn.
  assert (_blocks g2 = _blocks g) as Hb2.
  { rewrite Hd. by destruct (is_navigation e). }
  intros [= <-]. eexists. split; [reflexivity|].
  destruct newBlock as [b|]; cbn; rewrite Hb2.
  - split.
    + intros Habs. apply (f_equal length) in Habs.
      rewrite length_app in Habs. cbn in Habs. lia.
    + intros b0 [= <-]%app_inv_head. unfold _handleComments at 1.
      by destruct (truthy (Event.comments e)).
  - split; [done|]. intros b0 Habs. apply (f_equal length) in Habs.
    rewrite length_app in Habs. cbn in Habs. lia.
Qed.

Lemma comment_attachment_witness :
  let e := Event.mk (JStr "click") (JStr "#go") JUndefined JUndefined
             JUndefined JUndefined None JUndefined (JStr "ambiguous") in
  ∃ g', parse_event (<["waitForSelectorOnClick" := JBool false]> ∅) fresh e
        = Ok g'
        ∧ value <$> lines_of (_blocks g')
          = ["/** ambiguous */"; "await page.click('#go')"].
Proof.
  intros e.
  assert (∃ g', parse_event (<["waitForSelectorOnClick" := JBool false]> ∅)
                  fresh e = Ok g') as [g' Hp].
  { eexists. by vm_compute. }
  exists g'. split; [exact Hp|].
  destruct (comment_attachment _ _ _ _ Hp) as (g0 & Hp0 & _ & Hsome).
  vm_compute in Hp0. injection Hp0 as <-.
  rewrite (Hsome _ eq_refl). reflexivity.
Defined.

(** X5. The viewport statement: a [viewport*] event whose value is
    [undefined] or [null] makes the iteration throw; with any other value
    it appends one statement setting the viewport in the frame of the
    event, the width and the height being the properties of that name of
    the value, [undefined] when the value has no such property or is no
    object, provided JavaScript prints them, and the comment of the
    event, as modelled; safe integers it prints in decimal. *)
Theorem viewport_statement (opts : Options) (g : CodeGenerator.t)
    (e : Event.t) :
  Event.action e = JStr "viewport*" →
  let g0 := _setFrames g (Event.frameId e) (Event.frameUrl e) in
  let dimension k :=
    match Event.value e with
    | JObj props => assoc k props
    | _ => JUndefined
    end in
  let statement width height :=
    "await " +:+ _frame g0 +:+ ".setViewport({ width: " +:+ width
    +:+ ", height: " +:+ height +:+ " })" in
  match Event.value e with
  | JUndefined | JNull => parse_event opts g e = Throw TypeError
  | _ =>
      forallb plain (spliced opts e) = true →
      ∃ g', parse_event opts g e = Ok g'
            ∧ _blocks g'
              = _blocks g
                ++ [_handleComments
                      (Block.mk (Some (_frameId g0))
                         [mkLine (Some VIEWPORT)
                            (statement (to_string (dimension "width"))
                               (to_string (dimension "height")))
                            (Some (_frameId g0))])
                      (Event.comments e)]
  end
  ∧ (∀ w h : Z,
       Event.value e = JObj [("width", JNum w); ("height", JNum h)] →
       Z.abs w ≤ MAX_SAFE_INTEGER → Z.abs h ≤ MAX_SAFE_INTEGER →
       (truthy (Event.comments e) = true → plain (Event.comments e) = true) →
       ∃ g', parse_event opts g e = Ok g'
             ∧ Block.value <$> last (lines_of (_blocks g'))
               = Some (statement (pretty w) (pretty h))).
Proof.
  intros Hact g0 dimension statement.
  pose proof (setFrames_blocks g (Event.frameId e) (Event.frameUrl e))
    as Hbl. fold g0 in Hbl.
  split.
  - unfold parse_event. fold g0. unfold dispatch. rewrite Hact. cbn.
    subst dimension statement. cbn.
    destruct (Event.value e); cbn; try done; intros _;
      (eexists; split; [reflexivity|]); cbn; by rewrite Hbl.
  - intros w h Hval _ _ _. unfold parse_event. fold g0. unfold dispatch.
    rewrite Hact, Hval. cbn. eexists. split; [reflexivity|].
    cbn [push _blocks].
    rewrite (last_lines_of_snoc _ _
               (mkLine (Some VIEWPORT) (statement (pretty w) (pretty h))
                  (Some (_frameId g0)))); [done|].
    by apply last_handleComments.
Qed.

Lemma viewport_statement_witness :
  let e := Event.mk (JStr "viewport*") JUndefined
             (JObj [("width", JNum 1280); ("height", JNum 720)]) JUndefined
             JUndefined JUndefined None JUndefined JUndefined in
  ∃ g', parse_event defaults fresh e = Ok g'
        ∧ Block.value <$> last (lines_of (_blocks g'))
          = Some "await page.setViewport({ width: 1280, height: 720 })".
Proof.
  intros e.
  destruct (viewport_statement defaults fresh e eq_refl) as [_ Hnum].
  apply (Hnum 1280 720 eq_refl); [by vm_compute | by vm_compute |].
  intros H. vm_compute in H. discriminate.
Defined.

Lemma parse_event_ok_readable opts g e g' :
  parse_event opts g e = Ok g' → viewport_has_value e = true.
Proof.
  intros Hp. destruct (viewport_has_value e) eqn:Hv; [done|].
  rewrite (parse_event_unreadable opts g e Hv) in Hp. discriminate.
Qed.

(** X11. The event loop treats every event on its own: when a new
    instance processes two sequences one after the other, the block list
    is the blocks of the first followed by the blocks of the second, each
    as a new instance would build them, and a navigation is recorded when
    either sequence holds one. *)
Theorem event_loop_piecewise (opts : Options) (events1 events2 : list Event.t)
    (g : CodeGenerator.t) :
  for_each (parse_event opts) fresh (events1 ++ events2) = Ok g →
  ∃ g1 g2,
    for_each (parse_event opts) fresh events1 = Ok g1
    ∧ for_each (parse_event opts) fresh events2 = Ok g2
    ∧ for_each (parse_event opts) g1 events2 = Ok g
    ∧ _blocks g = _blocks g1 ++ _blocks g2
    ∧ _hasNavigation g = _hasNavigation g1 || _hasNavigation g2.
Proof.
  intros Hrun.
  assert (Forall (λ e, viewport_has_value e = true) (events1 ++ events2))
    as Hall.
  { eapply Forall_impl; [exact (for_each_each _ _ _ _ Hrun)|].
    intros e (ga & gb & Hp). by eapply parse_event_ok_readable. }
  apply Forall_app in Hall as [Hall1 Hall2].
  destruct (for_each_readable opts events1 Hall1 fresh) as [g1 Hg1].
  destruct (for_each_readable opts events2 Hall2 fresh) as [g2 Hg2].
  destruct (for_each_readable opts events2 Hall2 g1) as [g3 Hg3].
  exists g1, g2.
  destruct (for_each_inv _ _ _ _ Hrun) as (Hb & Hn & _).
  destruct (for_each_inv _ _ _ _ Hg1) as (Hb1 & Hn1 & _).
  destruct (for_each_inv _ _ _ _ Hg2) as (Hb2 & Hn2 & _).
  cbn in Hb, Hn, Hb1, Hn1, Hb2, Hn2.
  assert (g3 = g) as ->.
  { clear -Hrun Hg1 Hg3. revert Hrun Hg1.
    generalize fresh. induction events1 as [|e l IH]; intros g0 Hrun Hg1.
    - injection Hg1 as ->. cbn in Hrun. congruence.
    - cbn in Hrun, Hg1. destruct (parse_event opts g0 e); [|done].
      cbn in Hrun, Hg1. by eapply IH. }
  repeat split; try done.
  - by rewrite Hb, Hb1, Hb2, omap_app.
  - rewrite Hn, Hn1, Hn2. by rewrite existsb_app.
Qed.

Lemma event_loop_piecewise_witness :
  let e1 := event "click" (JStr "#a") (Some 2) (JStr "https://f/") in
  let e2 := event "navigation*" JUndefined None JUndefined in
  ∃ g g1 g2,
    for_each (parse_event defaults) fresh [e1; e2] = Ok g
    ∧ for_each (parse_event defaults) fresh [e1] = Ok g1
    ∧ for_each (parse_event defaults) fresh [e2] = Ok g2
    ∧ _blocks g = _blocks g1 ++ _blocks g2.
Proof.
  intros e1 e2.
  assert (∃ g, for_each (parse_event defaults) fresh ([e1] ++ [e2]) = Ok g)
    as [g Hg].
  { eexists. by vm_compute. }
  destruct (event_loop_piecewise defaults [e1] [e2] g Hg)
    as (g1 & g2 & H1 & H2 & _ & Hb & _).
  by exists g, g1, g2.
Defined.

(** ** What the passes add *)

Lemma lines_of_app bs1 bs2 : lines_of (bs1 ++ bs2) = lines_of bs1 ++ lines_of bs2.
Proof. unfold lines_of. apply flat_map_app. Qed.

Lemma lines_of_cons b bs : lines_of (b :: bs) = getLines b ++ lines_of bs.
Proof. done. Qed.

Lemma elem_of_lines_of l bs :
  l ∈ lines_of bs ↔ ∃ b, b ∈ bs ∧ l ∈ getLines b.
Proof.
  induction bs as [|b bs IH].
  - split; [by intros ?%elem_of_nil|]. by intros (b & ?%elem_of_nil & _).
  - rewrite lines_of_cons, elem_of_app, IH. split.
    + intros [Hl | (b' & Hb' & Hl)].
      * exists b. split; [apply elem_of_cons; by left | done].
      * exists b'. split; [apply elem_of_cons; by right | done].
    + intros (b' & [-> | Hb']%elem_of_cons & Hl); [by left|].
      right. by exists b'.
Qed.

(** Blank blocks add no line that a predicate false on the blank line
    selects. *)
Lemma filter_lines_interleave (P : Line → Prop) `{∀ l, Decision (P l)} bs :
  ¬ P (mkLine None "" None) →
  filter P (lines_of (interleave bs)) = filter P (lines_of bs).
Proof.
  intros Hblank.
  assert (filter P (getLines blankLine) = []) as Hb.
  { change (getLines blankLine) with [mkLine None "" None].
    by rewrite filter_cons_False. }
  induction bs as [|b bs IH].
  - unfold interleave. cbn [flat_map]. rewrite lines_of_cons, filter_app, Hb.
    done.
  - rewrite interleave_cons, !lines_of_cons, !filter_app, Hb, IH. done.
Qed.

Lemma postProcess_blocks_cases opts g :
  _blocks (_postProcess opts g) = _blocks (_postProcessSetFrames g)
  ∨ _blocks (_postProcess opts g)
    = interleave (_blocks (_postProcessSetFrames g)).
Proof.
  rewrite postProcess_blocks, postProcessSetFrames_guard.
  destruct (truthy _); [|by left].
  destruct (_blocks (_postProcessSetFrames g)); [by left | by right].
Qed.

Lemma postProcessSetFrames_blocks g :
  _blocks (_postProcessSetFrames g) = (set_frames (_allFrames g) (_blocks g)).1.
Proof.
  unfold _postProcessSetFrames.
  by destruct (set_frames (_allFrames g) (_blocks g)).
Qed.

(** The frame pass adds declaration lines only. *)
Lemma filter_lines_set_frames (P : Line → Prop) `{∀ l, Decision (P l)} bs :
  (∀ l, P l → type l ≠ Some FRAME_SET) →
  ∀ m, filter P (lines_of (set_frames m bs).1) = filter P (lines_of bs).
Proof.
  intros HP. induction bs as [|b bs IH]; intros m; [done|].
  rewrite set_frames_cons. cbn zeta. cbn [fst].
  rewrite !lines_of_cons, !filter_app, IH. f_equal.
  destruct (scan_lines_cases m b (getLines b))
    as [-> | (fid & _ & _ & _ & ->)]; [done|].
  cbn [fst]. unfold declare_frame, addLineToTop. cbn [getLines _lines].
  rewrite !filter_cons_False; [done|intros HPl; by apply HP in HPl..].
Qed.

Lemma filter_lines_postProcess (P : Line → Prop) `{∀ l, Decision (P l)}
    opts g :
  (∀ l, P l → type l ≠ Some FRAME_SET) →
  ¬ P (mkLine None "" None) →
  filter P (lines_of (_blocks (_postProcess opts g)))
  = filter P (lines_of (_blocks g)).
Proof.
  intros HP Hblank.
  destruct (postProcess_blocks_cases opts g) as [-> | ->];
    rewrite ?filter_lines_interleave by done;
    by rewrite postProcessSetFrames_blocks, filter_lines_set_frames.
Qed.

(** ** Frames are declared once, before their first line *)

Lemma lines_of_frame_uniform b z fid :
  uniform b z →
  lines_of_frame fid (getLines b) = if decide (z = fid) then getLines b else [].
Proof.
  intros [_ Hall]. unfold lines_of_frame.
  induction Hall as [|l ls Hl _ IH]; [by destruct (decide _)|].
  rewrite filter_cons, IH, Hl.
  destruct (decide (z = fid)) as [->|Hne].
  - by rewrite decide_True.
  - rewrite decide_False; [done | congruence].
Qed.

Lemma declare_frame_lines m b fid url :
  uniform b fid → m !! frame_key fid = Some url →
  getLines (declare_frame m b fid)
  = frames_line fid :: frame_line fid url :: getLines b.
Proof.
  intros [Hfid _] Hurl. unfold declare_frame, addLineToTop, stamp.
  cbn. by rewrite Hfid, Hurl.
Qed.

Lemma declare_frame_uniform m b fid :
  uniform b fid → uniform (declare_frame m b fid) fid.
Proof.
  intros [Hfid Hall]. split; [done|].
  unfold declare_frame, addLineToTop, stamp. cbn. rewrite Hfid.
  by repeat constructor.
Qed.

Lemma lines_of_frame_cons fid b bs :
  lines_of_frame fid (lines_of (b :: bs))
  = lines_of_frame fid (getLines b) ++ lines_of_frame fid (lines_of bs).
Proof. unfold lines_of_frame. by rewrite lines_of_cons, filter_app. Qed.

(** The lines of one frame after the frame pass. *)
Lemma set_frames_lines_of_frame bs : ∀ m fid,
  Forall (λ b, ∃ z, uniform b z) bs →
  fid ≠ 0 →
  (m !! frame_key fid = None →
   lines_of_frame fid (lines_of (set_frames m bs).1)
   = lines_of_frame fid (lines_of bs))
  ∧ (lines_of_frame fid (lines_of bs) = [] →
     lines_of_frame fid (lines_of (set_frames m bs).1) = [])
  ∧ (∀ url, m !! frame_key fid = Some url →
       lines_of_frame fid (lines_of bs) ≠ [] →
       lines_of_frame fid (lines_of (set_frames m bs).1)
       = frames_line fid :: frame_line fid url
         :: lines_of_frame fid (lines_of bs)).
Proof.
  induction bs as [|b0 bs IH]; intros m fid Hwf Hfid; [done|].
  apply Forall_cons in Hwf as [[z0 Hu0] Hwf].
  rewrite set_frames_cons. cbn zeta. cbn [fst].
  rewrite (scan_lines_uniform m b0 z0) by apply Hu0.
  rewrite !lines_of_frame_cons.
  rewrite (lines_of_frame_uniform b0 z0 fid Hu0).
  case_bool_decide as Htrig; cbn [fst snd].
  - destruct Htrig as (Hne & Hz0 & [url0 Hurl0]%elem_of_dom).
    rewrite (lines_of_frame_uniform _ z0 fid
               (declare_frame_uniform m b0 z0 Hu0)).
    destruct (IH (delete (frame_key z0) m) fid Hwf Hfid)
      as (Hnone & Hnil & Hsome).
    destruct (decide (z0 = fid)) as [->|Hz].
    + rewrite (Hnone (lookup_delete_eq _ _)).
      rewrite (declare_frame_lines m b0 fid url0 Hu0 Hurl0).
      split; [congruence|]. split.
      * intros Habs. destruct (getLines b0); [done | discriminate].
      * intros url Hurl _. by replace url with url0 by congruence.
    + assert (frame_key z0 ≠ frame_key fid) as Hk
        by (intros ?%frame_key_inj; done).
      rewrite lookup_delete_ne in Hnone by done.
      split; [exact Hnone|]. split; [exact Hnil|].
      intros url Hurl. apply Hsome. by rewrite lookup_delete_ne.
  - destruct (IH m fid Hwf Hfid) as (Hnone & Hnil & Hsome).
    rewrite !(lines_of_frame_uniform b0 z0 fid Hu0).
    destruct (decide (z0 = fid)) as [->|Hz]; [|done].
    split; [by intros ->%Hnone|]. split.
    + intros [-> Hb]%app_eq_nil. by rewrite (Hnil Hb).
    + intros url Hurl Hbefore.
      destruct (getLines b0) as [|l0 ls0] eqn:Hb0; [by apply Hsome|].
      destruct Htrig. repeat split; [done..|].
      apply elem_of_dom. by eexists.
Qed.

(** X7. Frames are declared once and before use.  In the final block
    list of any event sequence compiled by a new instance, the lines of a
    frame other than the page are, in print order, the line fetching the
    frame list, the line resolving that frame by the URL recorded for it,
    and then exactly the lines the events and the navigation-promise
    declaration gave that frame; a frame with no such line gets no
    declaration. *)
Theorem frames_declared_once_before_use (opts : Options)
    (events : list Event.t) (g : CodeGenerator.t) (fid : Z) :
  for_each (parse_event opts) fresh events = Ok g →
  fid ≠ 0 →
  let g0 := hoist_navigationPromise opts g in
  let before := lines_of_frame fid (lines_of (_blocks g0)) in
  let after := lines_of_frame fid (lines_of (_blocks (_postProcess opts g0))) in
  (before = [] → after = [])
  ∧ (before ≠ [] →
     ∃ url, _allFrames g !! frame_key fid = Some url
            ∧ after = frames_line fid :: frame_line fid url :: before).
Proof.
  intros Hrun Hfid g0 before after.
  destruct (hoisted_blocks opts events g Hrun) as (Hm & Hwf & Hpend).
  fold g0 in Hm, Hwf, Hpend.
  assert (after = lines_of_frame fid
                    (lines_of (set_frames (_allFrames g) (_blocks g0)).1))
    as Hafter.
  { unfold after, lines_of_frame.
    destruct (postProcess_blocks_cases opts g0) as [-> | ->];
      rewrite ?filter_lines_interleave by done;
      by rewrite postProcessSetFrames_blocks, Hm. }
  destruct (set_frames_lines_of_frame (_blocks g0) (_allFrames g) fid
              Hwf Hfid) as (_ & Hnil & Hsome).
  fold before in Hnil, Hsome. rewrite Hafter.
  split; [exact Hnil|]. intros Hne.
  assert (∃ l, l ∈ before) as [l Hl].
  { destruct before as [|l ls]; [done|]. exists l. apply elem_of_cons. by left. }
  apply list_elem_of_filter in Hl as [Hlf Hl].
  apply elem_of_lines_of in Hl as (b & Hb & Hlb).
  destruct (Hpend b fid Hb) as [url Hurl]; [by exists l | done |].
  exists url. split; [done|]. by apply Hsome.
Qed.

Lemma frames_declared_once_before_use_witness :
  let events :=
    [event "click" (JStr "#a") (Some 3) (JStr "https://three.example/");
     event "click" (JStr "#b") None JUndefined;
     event "change" (JStr "#c") (Some 3) (JStr "https://three.example/")] in
  ∃ g,
    for_each (parse_event defaults) fresh events = Ok g
    ∧ value <$> lines_of_frame 3
                  (lines_of (_blocks (_postProcess defaults
                                        (hoist_navigationPromise defaults g))))
      = ["let frames = await page.frames()";
         "const frame_3 = frames.find(f => f.url() === 'https://three.example/')";
         "await frame_3.waitForSelector('#a')";
         "await frame_3.click('#a')";
         "await frame_3.type('#c', 'undefined')"].
Proof.
  intros events.
  assert (∃ g, for_each (parse_event defaults) fresh events = Ok g)
    as [g Hrun].
  { eexists. by vm_compute. }
  exists g. split; [exact Hrun|].
  destruct (frames_declared_once_before_use defaults events g 3 Hrun)
    as [_ Hsome]; [done|].
  destruct (for_each_inv defaults events fresh g Hrun) as (Hb & Hn & _).
  assert (_hasNavigation g = false) as Hfalse by (rewrite Hn; by vm_compute).
  assert (_blocks (hoist_navigationPromise defaults g)
          = omap (emitted defaults) events) as Hg0.
  { unfold hoist_navigationPromise. rewrite Hfalse. exact Hb. }
  rewrite Hg0 in Hsome.
  destruct Hsome as (url & Hurl & ->); [by vm_compute|].
  rewrite (for_each_allFrames defaults events fresh g 3 Hrun) in Hurl by done.
  vm_compute in Hurl. injection Hurl as <-. by vm_compute.
Defined.

(** ** Using one instance twice *)

Lemma parseEvents_inv opts g events out g' :
  _parseEvents opts g events = Ok (out, g') →
  ∃ g1, for_each (parse_event opts) g events = Ok g1
        ∧ g' = _postProcess opts (hoist_navigationPromise opts g1).
Proof.
  unfold _parseEvents. intros Hp.
  destruct (for_each (parse_event opts) g events) as [g1|]; [|done].
  cbn in Hp. injection Hp as _ <-. by exists g1.
Qed.

Lemma generate_inv opts g events out g' :
  generate opts g events = Ok (out, g') →
  ∃ body, _parseEvents opts g events = Ok (body, g').
Proof.
  unfold generate. intros Hg.
  destruct (_parseEvents opts g events) as [[body g1]|]; [|done].
  cbn in Hg. injection Hg as _ <-. by exists body.
Qed.

Lemma hoist_fields opts g :
  _hasNavigation (hoist_navigationPromise opts g) = _hasNavigation g
  ∧ _allFrames (hoist_navigationPromise opts g) = _allFrames g
  ∧ (_blocks (hoist_navigationPromise opts g) = _blocks g
     ∨ _blocks (hoist_navigationPromise opts g)
       = navigationPromise_block g :: _blocks g).
Proof.
  unfold hoist_navigationPromise. destruct (_ && _); cbn; auto.
Qed.

Lemma postProcess_hasNavigation opts g :
  _hasNavigation (_postProcess opts g) = _hasNavigation g.
Proof.
  unfold _postProcess, _postProcessSetFrames, _postProcessAddBlankLines.
  destruct (set_frames (_allFrames g) (_blocks g)).
  by repeat (case_bool_decide || case_match).
Qed.

Lemma postProcess_length opts g :
  (length (_blocks g) ≤ length (_blocks (_postProcess opts g)))%nat
  ∧ (truthy (option_of opts "blankLinesBetweenBlocks") = true →
     _blocks g ≠ [] →
     length (_blocks (_postProcess opts g)) = (2 * length (_blocks g) + 1)%nat).
Proof.
  rewrite postProcess_blocks, postProcessSetFrames_guard,
    postProcessSetFrames_blocks.
  pose proof (set_frames_length (_blocks g) (_allFrames g)) as Hlen.
  destruct (set_frames (_allFrames g) (_blocks g)).1 as [|b bs] eqn:Hbs.
  - destruct (_blocks g); [|done]. split; [by destruct (truthy _) | done].
  - split.
    + destruct (truthy _); [rewrite length_interleave|]; lia.
    + intros -> _. rewrite length_interleave. lia.
Qed.

(** X8. An instance keeps what it generated: the block list is never
    cleared, so the list a second [generate] on the same instance
    post-processes is the list the first call left, blank blocks
    included, followed by the blocks of the new events and preceded by
    one more declaration of the navigation promise when the flag, which
    stays set, is set and waiting is enabled.  The frame pass leaves each
    of these blocks as it is or under new declarations, and with blank
    lines enabled the outcome is interleaved with blank blocks once more.
    So the second script prints every line of the first again, in the
    same order, among its own. *)
Theorem generate_twice (opts : Options) (g g1 g2 : CodeGenerator.t)
    (events1 events2 : list Event.t) (out1 out2 : string) :
  generate opts g events1 = Ok (out1, g1) →
  generate opts g1 events2 = Ok (out2, g2) →
  (∃ g3 blocks,
     for_each (parse_event opts) g1 events2 = Ok g3
     ∧ _hasNavigation g3
       = _hasNavigation g1 || existsb is_navigation events2
     ∧ Forall2 extends blocks
         ((if _hasNavigation g3 && truthy (option_of opts "waitForNavigation")
           then [navigationPromise_block g3] else [])
          ++ _blocks g1 ++ omap (emitted opts) events2)
     ∧ _blocks g2
       = if truthy (option_of opts "blankLinesBetweenBlocks")
         then match blocks with
              | [] => []
              | _ :: _ => interleave blocks
              end
         else blocks)
  ∧ lines_of (_blocks g1) `sublist_of` lines_of (_blocks g2)
  ∧ (_hasNavigation g1 = true → _hasNavigation g2 = true)
  ∧ (length (_blocks g1) ≤ length (_blocks g2))%nat
  ∧ (truthy (option_of opts "blankLinesBetweenBlocks") = true →
     _blocks g1 ≠ [] →
     (2 * length (_blocks g1) + 1 ≤ length (_blocks g2))%nat).
Proof.
  intros _ (body & (g3 & Hrun & ->)%parseEvents_inv)%generate_inv.
  destruct (for_each_inv _ _ _ _ Hrun) as (Hb & Hn & _).
  destruct (hoist_fields opts g3) as (Hhn & _ & Hhb).
  assert (_blocks (hoist_navigationPromise opts g3)
          = (if _hasNavigation g3
                && truthy (option_of opts "waitForNavigation")
             then [navigationPromise_block g3] else [])
            ++ _blocks g1 ++ omap (emitted opts) events2) as Hhoist.
  { unfold hoist_navigationPromise.
    destruct (_hasNavigation g3 && _); cbn; by rewrite Hb. }
  set (g4 := hoist_navigationPromise opts g3) in *.
  assert (∃ pre, _blocks g4 = pre ++ _blocks g1 ++ omap (emitted opts) events2)
    as [pre Hg4].
  { destruct Hhb as [-> | ->]; rewrite Hb; [by exists [] | by eexists [_]]. }
  split; [|split; [|split; [|split]]].
  - exists g3,
      (_blocks (if bool_decide (0 < size (_allFrames g4))%nat
                then _postProcessSetFrames g4 else g4)).
    split; [exact Hrun|]. split; [exact Hn|]. split.
    + rewrite <- Hhoist. apply postProcess_frames_extends.
    + apply postProcess_blocks.
  - etrans; [|apply postProcess_lines_sublist].
    rewrite Hg4, !lines_of_app.
    apply sublist_inserts_l, sublist_inserts_r. done.
  - intros Hnav. by rewrite postProcess_hasNavigation, Hhn, Hn, Hnav.
  - etrans; [|apply postProcess_length].
    rewrite Hg4, !length_app. lia.
  - intros Hopt Hne.
    rewrite (proj2 (postProcess_length opts g4) Hopt).
    + rewrite Hg4, !length_app. lia.
    + rewrite Hg4. destruct pre; [|done]. by destruct (_blocks g1).
Qed.

Lemma generate_twice_witness :
  let click := event "click" (JStr "#go") None JUndefined in
  ∃ out1 g1 out2 g2,
    generate defaults fresh [click] = Ok (out1, g1)
    ∧ generate defaults g1 [] = Ok (out2, g2)
    ∧ length (_blocks g1) = 3%nat
    ∧ (∃ blocks, Forall2 extends blocks (_blocks g1)
                 ∧ _blocks g2 = interleave blocks)
    ∧ length (_blocks g2) = 7%nat.
Proof.
  intros click.
  assert (∃ r, generate defaults fresh [click] = Ok r) as [[out1 g1] H1].
  { eexists. by vm_compute. }
  assert (∃ r, generate defaults g1 [] = Ok r) as [[out2 g2] H2].
  { destruct (proj2 (generate_throws_iff_aux defaults g1 [])) as (o & g' & H);
      [constructor | by exists (o, g')]. }
  exists out1, g1, out2, g2.
  assert (length (_blocks g1) = 3%nat ∧ _hasNavigation g1 = false)
    as [Hlen Hnav].
  { vm_compute in H1. by injection H1 as _ <-. }
  split; [exact H1|]. split; [exact H2|]. split; [exact Hlen|].
  destruct (generate_twice defaults fresh g1 g2 [click] [] out1 out2 H1 H2)
    as ((g3 & blocks & Hrun & Hn & Hext & Hb2) & _).
  rewrite Hn, Hnav in Hext. cbn in Hext. rewrite app_nil_r in Hext.
  pose proof (Forall2_length _ _ _ Hext) as Hl. rewrite Hlen in Hl.
  assert (_blocks g2 = interleave blocks) as Hint.
  { rewrite Hb2. destruct blocks; [discriminate | reflexivity]. }
  split; [by exists blocks|].
  rewrite Hint, length_interleave. lia.
Defined.

(** ** Recordings of the page alone *)

Lemma for_each_page_only opts events : ∀ g g',
  Forall (λ e, frame_of e = 0) events →
  for_each (parse_event opts) g events = Ok g' →
  _allFrames g' = _allFrames g.
Proof.
  induction events as [|e events IH]; intros g g' Hall Hrun.
  - by injection Hrun as <-.
  - apply Forall_cons in Hall as [He Hall]. cbn in Hrun.
    destruct (parse_event opts g e) as [g1|] eqn:Hp; [|done]. cbn in Hrun.
    rewrite (IH g1 g' Hall Hrun).
    apply parse_event_inv in Hp as (_ & _ & -> & _).
    unfold frame_of in He. unfold _setFrames.
    destruct (Event.frameId e) as [fid|]; [|done]. cbn in He. by subst.
Qed.

Lemma Forall_lines_interleave (P : Line → Prop) bs :
  P (mkLine None "" None) →
  Forall P (lines_of bs) → Forall P (lines_of (interleave bs)).
Proof.
  intros Hblank. induction bs as [|b bs IH]; intros Hall.
  - by repeat constructor.
  - rewrite interleave_cons, !lines_of_cons.
    rewrite lines_of_cons in Hall. apply Forall_app in Hall as [Hb Hall].
    apply Forall_app. split; [by repeat constructor|].
    apply Forall_app. split; [done | by apply IH].
Qed.

(** X9. A recording of the page alone has no frame plumbing: when every
    event comes from frame 0 or carries no frame id, nothing is pending
    after compilation by a new instance, no line of the final block list
    is a frame declaration, and every line belongs to frame 0 or, for the
    blank lines, to no frame. *)
Theorem page_only_recording (opts : Options) (events : list Event.t)
    (out : string) (g' : CodeGenerator.t) :
  Forall (λ e, frame_of e = 0) events →
  _parseEvents opts fresh events = Ok (out, g') →
  _allFrames g' = ∅
  ∧ Forall (λ l, type l ≠ Some FRAME_SET
                 ∧ (frameId l = None ∨ frameId l = Some 0))
      (lines_of (_blocks g')).
Proof.
  intros Hall (g1 & Hrun & ->)%parseEvents_inv.
  pose proof (for_each_page_only _ _ _ _ Hall Hrun) as Hm. cbn in Hm.
  destruct (for_each_inv _ _ _ _ Hrun) as (Hb & _ & Hi). cbn in Hb, Hi.
  destruct (hoist_fields opts g1) as (_ & Hhm & Hhb).
  set (g0 := hoist_navigationPromise opts g1) in *.
  rewrite Hm in Hhm.
  assert (_frameId g1 = 0) as Hfid.
  { rewrite Hi. destruct (last events) as [e|] eqn:Hlast; [|done]. cbn.
    apply last_Some in Hlast as [l ->].
    by apply Forall_app in Hall as [_ [? _]%Forall_cons]. }
  assert (Forall (λ l, type l ≠ Some FRAME_SET
                       ∧ (frameId l = None ∨ frameId l = Some 0))
            (lines_of (_blocks g0))) as Hlines.
  { assert (Forall (λ l, type l ≠ Some FRAME_SET
                         ∧ (frameId l = None ∨ frameId l = Some 0))
              (lines_of (_blocks g1))) as H1.
    { rewrite Hb. apply Forall_forall.
      intros l (b & (e & He & Hem)%list_elem_of_omap & Hl)%elem_of_lines_of.
      apply emitted_spec in Hem as (_ & Hls & _).
      rewrite Forall_forall in Hls. rewrite Forall_forall in Hall.
      destruct (Hls l Hl) as (Hf & _ & Hty). rewrite (Hall e He) in Hf. auto. }
    destruct Hhb as [-> | ->]; [done|].
    rewrite lines_of_cons. apply Forall_app. split; [|done].
    cbn. rewrite Hfid. by repeat constructor. }
  assert (_postProcess opts g0
          = if truthy (option_of opts "blankLinesBetweenBlocks")
               && bool_decide (0 < length (_blocks g0))%nat
            then _postProcessAddBlankLines g0 else g0) as ->.
  { unfold _postProcess. rewrite Hhm, map_size_empty.
    by rewrite (bool_decide_false (0 < 0)%nat) by lia. }
  destruct (_ && _); [|done]. split; [done|].
  cbn [_postProcessAddBlankLines _blocks].
  rewrite add_blank_lines_interleave.
  apply Forall_lines_interleave; [|done]. split; [done | by left].
Qed.

Lemma page_only_recording_witness :
  let events := [event "click" (JStr "#a") (Some 0) (JStr "https://top/");
                 event "navigation*" JUndefined None JUndefined] in
  ∃ out g', _parseEvents defaults fresh events = Ok (out, g')
            ∧ _allFrames g' = ∅.
Proof.
  intros events.
  assert (∃ r, _parseEvents defaults fresh events = Ok r) as [[out g'] Hp].
  { eexists. by vm_compute. }
  exists out, g'. split; [exact Hp|].
  apply (page_only_recording defaults events out g'); [|exact Hp].
  by repeat constructor.
Defined.

(** ** Navigation lines *)

Lemma count_text_app text ls1 ls2 :
  count_text text (ls1 ++ ls2)
  = (count_text text ls1 + count_text text ls2)%nat.
Proof. unfold count_text. by rewrite filter_app, length_app. Qed.

(** No statement on a frame variable, and no comment, has the text of a
    line of the navigation plumbing. *)
Lemma statement_not_navigation fid rest :
  "await " +:+ frame_variable fid +:+ rest ≠ "await navigationPromise"
  ∧ "await " +:+ frame_variable fid +:+ rest
    ≠ "const navigationPromise = page.waitForNavigation()".
Proof.
  unfold frame_variable.
  destruct (fid =? 0); split; intros H; cbv [String.append] in H;
    discriminate H.
Qed.

Lemma comment_not_navigation text :
  "/** " +:+ text +:+ " */" ≠ "await navigationPromise"
  ∧ "/** " +:+ text +:+ " */"
    ≠ "const navigationPromise = page.waitForNavigation()".
Proof. split; intros H; cbv [String.append] in H; discriminate H. Qed.

(** The frame pass adds no line of the navigation plumbing. *)
Lemma filter_text_set_frames text bs :
  text ≠ "let frames = await page.frames()" →
  (∀ rest, text ≠ "const frame_" +:+ rest) →
  ∀ m, filter (λ l, value l = text) (lines_of (set_frames m bs).1)
       = filter (λ l, value l = text) (lines_of bs).
Proof.
  intros H1 H2. induction bs as [|b bs IH]; intros m; [done|].
  rewrite set_frames_cons. cbn zeta. cbn [fst].
  rewrite !lines_of_cons, !filter_app, IH. f_equal.
  destruct (scan_lines_cases m b (getLines b))
    as [-> | (fid & _ & _ & _ & ->)]; [done|].
  cbn [fst]. unfold declare_frame, addLineToTop. cbn [getLines _lines].
  rewrite !filter_cons_False; [done|..]; cbn; intros Heq; symmetry in Heq.
  - by apply H2 in Heq.
  - by apply H1 in Heq.
Qed.

Lemma filter_text_postProcess text opts g :
  text ≠ "" →
  text ≠ "let frames = await page.frames()" →
  (∀ rest, text ≠ "const frame_" +:+ rest) →
  filter (λ l, value l = text) (lines_of (_blocks (_postProcess opts g)))
  = filter (λ l, value l = text) (lines_of (_blocks g)).
Proof.
  intros H0 H1 H2.
  destruct (postProcess_blocks_cases opts g) as [-> | ->];
    rewrite ?filter_lines_interleave by (cbn; congruence);
    by rewrite postProcessSetFrames_blocks, filter_text_set_frames.
Qed.

(** The lines of the navigation plumbing in the block of one event. *)
Lemma emitted_navigation_text opts e b :
  (truthy (option_of opts "customLineAfterClick") = true →
   to_string (option_of opts "customLineAfterClick")
   ≠ "await navigationPromise"
   ∧ to_string (option_of opts "customLineAfterClick")
     ≠ "const navigationPromise = page.waitForNavigation()") →
  emitted opts e = Some b →
  count_text "await navigationPromise" (getLines b)
  = (if is_navigation e && truthy (option_of opts "waitForNavigation")
     then 1 else 0)%nat
  ∧ count_text "const navigationPromise = page.waitForNavigation()"
      (getLines b) = 0%nat.
Proof.
  intros Hcustom. unfold emitted.
  pose proof (setFrames_frame_variable fresh e) as HF.
  set (g0 := _setFrames fresh _ _) in *.
  pose proof (λ rest, proj1 (statement_not_navigation (frame_of e) rest))
    as Hst1.
  pose proof (λ rest, proj2 (statement_not_navigation (frame_of e) rest))
    as Hst2.
  rewrite <- HF in Hst1, Hst2. clearbody g0. clear HF.
  pose proof (λ text, proj1 (comment_not_navigation text)) as Hco1.
  pose proof (λ text, proj2 (comment_not_navigation text)) as Hco2.
  unfold dispatch, is_navigation, _handleComments,
    _handleSubmit, _handleKeyDown, _handleClick, _handleSelectChange,
    _handleChange, _handleGoto, _handleViewport, _handleWaitForNavigation.
  destruct (truthy (option_of opts "customLineAfterClick")) eqn:Hcu;
    [destruct (Hcustom eq_refl) as [Hc1 Hc2] | ]; clear Hcustom.
  all: case_action e; cbn;
    repeat match goal with
      | |- context [is_string ?v ?lit] => destruct (is_string v lit)
      | |- context [is_number ?v ?n] => destruct (is_number v n)
      | |- context [truthy ?v] => destruct (truthy v)
      | |- context [get_prop (Event.value ?e) _] =>
          destruct (Event.value e); cbn
      end; cbn;
    try discriminate; intros [= <-].
  all: unfold count_text; cbn.
  all: repeat first
         [ rewrite decide_False by (first [apply Hst1 | apply Hst2
                                          | apply Hco1 | apply Hco2
                                          | assumption | discriminate])
         | rewrite decide_True by reflexivity ].
  all: done.
Qed.

Lemma navigation_emits opts e :
  is_navigation e = true → is_Some (emitted opts e).
Proof.
  unfold is_navigation. intros Hnav%is_string_true.
  unfold emitted, dispatch. rewrite Hnav. cbn. by eexists.
Qed.

Lemma count_navigation_events opts events :
  (truthy (option_of opts "customLineAfterClick") = true →
   to_string (option_of opts "customLineAfterClick")
   ≠ "await navigationPromise"
   ∧ to_string (option_of opts "customLineAfterClick")
     ≠ "const navigationPromise = page.waitForNavigation()") →
  count_text "await navigationPromise"
    (lines_of (omap (emitted opts) events))
  = (if truthy (option_of opts "waitForNavigation")
     then length (filter (λ e, is_navigation e = true) events) else 0)%nat
  ∧ count_text "const navigationPromise = page.waitForNavigation()"
      (lines_of (omap (emitted opts) events)) = 0%nat.
Proof.
  intros Hcustom. induction events as [|e events [IH1 IH2]].
  - split; [|done].
    by destruct (truthy (option_of opts "waitForNavigation")).
  - cbn [omap list_omap]. rewrite filter_cons.
    destruct (emitted opts e) as [b|] eqn:Hem.
    + rewrite lines_of_cons, !count_text_app, IH1, IH2.
      destruct (emitted_navigation_text opts e b Hcustom Hem) as [-> ->].
      destruct (is_navigation e), (truthy (option_of opts "waitForNavigation"));
        rewrite ?decide_True, ?decide_False by done; cbn; split; lia.
    + destruct (is_navigation e) eqn:Hnav.
      * destruct (navigation_emits opts e Hnav) as [b Hb]. congruence.
      * rewrite decide_False by done. by split.
Qed.

(** X10. Navigation plumbing: the body of the script is printed from the
    lines of the final block list, each under the indent and followed by
    a line break.  Unless [customLineAfterClick] is set to the very text
    of one of the two lines below, with navigation waiting enabled the
    lines that a new instance prints for a sequence hold the line
    [await navigationPromise] once for every [navigation*] event, and the
    line [const navigationPromise = page.waitForNavigation()] once if
    there is any such event, however many; with navigation waiting
    disabled they hold neither line. *)
Theorem navigation_plumbing (opts : Options) (events : list Event.t)
    (out : string) (g' : CodeGenerator.t) :
  let custom := option_of opts "customLineAfterClick" in
  (truthy custom = true →
   to_string custom ≠ "await navigationPromise"
   ∧ to_string custom
     ≠ "const navigationPromise = page.waitForNavigation()") →
  _parseEvents opts fresh events = Ok (out, g') →
  let indent := if truthy (option_of opts "wrapAsync") then "  " else "" in
  let n := length (filter (λ e, is_navigation e = true) events) in
  let awaits :=
    count_text "await navigationPromise" (lines_of (_blocks g')) in
  let declarations :=
    count_text "const navigationPromise = page.waitForNavigation()"
      (lines_of (_blocks g')) in
  out = print_lines indent (lines_of (_blocks g'))
  ∧ if truthy (option_of opts "waitForNavigation")
    then awaits = n
         ∧ declarations = (if decide (n = 0%nat) then 0 else 1)%nat
    else awaits = 0%nat ∧ declarations = 0%nat.
Proof.
  intros custom Hcustom Hparse indent n awaits declarations.
  split.
  { revert Hparse. unfold _parseEvents.
    destruct (for_each (parse_event opts) fresh events) as [g1|]; [|done].
    cbn. intros [= <- <-]. apply print_blocks_lines. }
  apply parseEvents_inv in Hparse as (g1 & Hrun & ->).
  subst awaits declarations. unfold count_text.
  rewrite !filter_text_postProcess
    by (try done; intros rest H; cbv [String.append] in H; discriminate H).
  fold (count_text "await navigationPromise"
          (lines_of (_blocks (hoist_navigationPromise opts g1)))).
  fold (count_text "const navigationPromise = page.waitForNavigation()"
          (lines_of (_blocks (hoist_navigationPromise opts g1)))).
  destruct (for_each_inv _ _ _ _ Hrun) as (Hb & Hn & _). cbn in Hb, Hn.
  destruct (count_navigation_events opts events Hcustom) as [Ha Hd].
  fold n in Ha. rewrite <- Hb in Ha, Hd.
  assert (existsb is_navigation events = negb (bool_decide (n = 0%nat)))
    as Hex.
  { subst n. clear. induction events as [|e events IH]; [done|].
    cbn [existsb]. rewrite filter_cons, IH.
    destruct (is_navigation e); [|by rewrite decide_False by done].
    rewrite decide_True by done. cbn. by rewrite bool_decide_false by done. }
  unfold hoist_navigationPromise. rewrite Hn, Hex.
  destruct (truthy (option_of opts "waitForNavigation")).
  - rewrite andb_true_r. destruct (decide (n = 0%nat)) as [Hn0|Hn0].
    + rewrite bool_decide_true by done. cbn [negb]. by rewrite Ha, Hd.
    + rewrite bool_decide_false by done. cbn [negb unshift _blocks].
      rewrite lines_of_cons, !count_text_app, Ha, Hd. done.
  - rewrite andb_false_r. by rewrite Ha, Hd.
Qed.

Lemma navigation_plumbing_witness :
  let events := [event "click" (JStr "#a") None JUndefined;
                 event "navigation*" JUndefined None JUndefined;
                 event "click" (JStr "#b") None JUndefined;
                 event "navigation*" JUndefined None JUndefined] in
  ∃ out g',
    _parseEvents defaults fresh events = Ok (out, g')
    ∧ out = print_lines "  " (lines_of (_blocks g'))
    ∧ count_text "await navigationPromise" (lines_of (_blocks g')) = 2%nat
    ∧ count_text "const navigationPromise = page.waitForNavigation()"
        (lines_of (_blocks g')) = 1%nat.
Proof.
  intros events.
  assert (∃ r, _parseEvents defaults fresh events = Ok r) as [[out g'] Hp].
  { eexists. by vm_compute. }
  exists out, g'. split; [exact Hp|].
  apply (navigation_plumbing defaults events out g'); [|exact Hp].
  intros H. vm_compute in H. discriminate.
Defined.

(** ** The statements of an event address its frame *)

(** X16. The statements an event produces address the variable of the
    frame the event comes from, [page] for frame 0 or no frame and
    [frame_<id>] otherwise, which is the variable the frame pass declares
    for the lines of that frame: every line of the event's block other
    than its comment, the awaiting of the navigation promise and the
    custom line after a click starts with [await <variable>.]. *)
Theorem statements_address_event_frame (opts : Options) (e : Event.t)
    (b : Block.t) (l : Line) :
  emitted opts e = Some b →
  l ∈ getLines b →
  frameId l = Some (frame_of e)
  ∧ match type l with
    | None | Some NAVIGATION => True
    | Some CLICK =>
        (∃ rest, value l = "await " +:+ frame_variable (frame_of e)
                           +:+ "." +:+ rest)
        ∨ (truthy (option_of opts "customLineAfterClick") = true
           ∧ value l = to_string (option_of opts "customLineAfterClick"))
    | Some _ =>
        ∃ rest, value l = "await " +:+ frame_variable (frame_of e)
                          +:+ "." +:+ rest
    end.
Proof.
  unfold emitted.
  pose proof (setFrames_frameId fresh e) as Hfid.
  pose proof (setFrames_frame_variable fresh e) as Hvar.
  set (g0 := _setFrames fresh _ _) in *. clearbody g0.
  unfold dispatch, _handleComments,
    _handleSubmit, _handleKeyDown, _handleClick, _handleSelectChange,
    _handleChange, _handleGoto, _handleViewport, _handleWaitForNavigation.
  rewrite Hfid, Hvar.
  case_action e; cbn;
    repeat match goal with
      | |- context [is_string ?v ?lit] => destruct (is_string v lit)
      | |- context [is_number ?v ?n] => destruct (is_number v n)
      | |- context [truthy ?v] => destruct (truthy v) eqn:?
      | |- context [get_prop (Event.value ?e) _] =>
          destruct (Event.value e); cbn
      end; cbn;
    try discriminate; intros [= <-]; cbn; intros Hl;
    repeat (apply elem_of_cons in Hl as [-> | Hl]);
    try (by apply elem_of_nil in Hl);
    cbn; (split; [done|]); try done;
    try (by eexists); try (left; by eexists); try (by right).
Qed.

Lemma statements_address_event_frame_witness :
  let e := event "change" (JStr "#q") (Some 4) (JStr "https://f/") in
  ∃ b, emitted defaults e = Some b
       ∧ Forall (λ l, ∃ rest, value l = "await frame_4." +:+ rest)
           (getLines b).
Proof.
  intros e.
  assert (∃ b, emitted defaults e = Some b) as [b Hb].
  { eexists. by vm_compute. }
  exists b. split; [exact Hb|]. apply Forall_forall. intros l Hl.
  destruct (statements_address_event_frame defaults e b l Hb Hl) as [_ Hty].
  assert (type l = Some CHANGE) as Htype.
  { vm_compute in Hb. injection Hb as <-.
    apply elem_of_cons in Hl as [-> | Hl]; [done|].
    by apply elem_of_nil in Hl. }
  rewrite Htype in Hty. destruct Hty as [rest Hrest].
  exists rest. rewrite Hrest. by vm_compute.
Defined.

(** * Properties of the recorder's helpers *)

(** ** Escaping the selector of a data attribute *)

Lemma escape_dots_head s c r :
  EventRecorder.escape_dots s = String c r →
  Ascii.eqb c EventRecorder.dot = false.
Proof.
  destruct s as [|c0 s']; [done|]. cbn [EventRecorder.escape_dots].
  destruct (Ascii.eqb c0 EventRecorder.dot) eqn:Hc; intros [= <- _]; done.
Qed.

Lemma unescape_escape_dots s :
  EventRecorder.unescape_dots (EventRecorder.escape_dots s) = s.
Proof.
  induction s as [|c s IH]; [done|]. cbn [EventRecorder.escape_dots].
  destruct (Ascii.eqb c EventRecorder.dot) eqn:Hc.
  - apply Ascii.eqb_eq in Hc as ->.
    cbn [EventRecorder.unescape_dots].
    change (Ascii.eqb EventRecorder.backslash EventRecorder.backslash
            && Ascii.eqb EventRecorder.dot EventRecorder.dot) with true.
    cbn iota. by rewrite IH.
  - destruct (EventRecorder.escape_dots s) as [|c2 r] eqn:He.
    + cbn in IH. by rewrite <- IH.
    + cbn [EventRecorder.unescape_dots].
      rewrite (escape_dots_head s c2 r He), andb_false_r.
      cbn [EventRecorder.unescape_dots] in IH. by rewrite IH.
Qed.

Lemma length_escape_dots s :
  String.length (EventRecorder.escape_dots s)
  = (String.length s + EventRecorder.count_dots s)%nat.
Proof.
  induction s as [|c s IH]; [done|].
  cbn [EventRecorder.escape_dots EventRecorder.count_dots String.length].
  destruct (Ascii.eqb c EventRecorder.dot); cbn [String.length];
    rewrite IH; lia.
Qed.

Lemma escape_dots_preceded s : ∀ i : nat,
  String.get i (EventRecorder.escape_dots s) = Some EventRecorder.dot →
  ∃ j : nat, i = S j
    ∧ String.get j (EventRecorder.escape_dots s)
      = Some EventRecorder.backslash.
Proof.
  induction s as [|c s IH]; intros i; [by destruct i|].
  cbn [EventRecorder.escape_dots].
  destruct (Ascii.eqb c EventRecorder.dot) eqn:Hc.
  - destruct i as [|[|k]]; cbn [String.get].
    + intros H. vm_compute in H. discriminate.
    + intros _. by exists 0%nat.
    + intros (j & -> & Hj)%IH. by exists (S (S j)).
  - destruct i as [|k]; cbn [String.get].
    + intros [= ->]. by rewrite Ascii.eqb_refl in Hc.
    + intros (j & -> & Hj)%IH. by exists (S j).
Qed.

Lemma escape_dots_none s :
  EventRecorder.count_dots s = 0%nat → EventRecorder.escape_dots s = s.
Proof.
  induction s as [|c s IH]; [done|].
  cbn [EventRecorder.escape_dots EventRecorder.count_dots].
  destruct (Ascii.eqb c EventRecorder.dot); [done|].
  intros H. by rewrite IH.
Qed.

(** X13. The selector of a data attribute is [[name="value"]] with a
    backslash put before every dot and nothing else changed: reading the
    selector back, a backslash and a dot as a dot, gives the text again,
    so no two texts share a selector; it is longer by the number of dots;
    every dot of it stands right after a backslash; a text without dots
    is left as it is. *)
Theorem formatDataSelector_escapes (element : EventRecorder.Element)
    (attribute : string) :
  let raw := "[" +:+ attribute +:+ "=" +:+ EventRecorder.quote
             +:+ to_string (EventRecorder.getAttribute element attribute)
             +:+ EventRecorder.quote +:+ "]" in
  let selector := EventRecorder.formatDataSelector element attribute in
  EventRecorder.unescape_dots selector = raw
  ∧ String.length selector
    = (String.length raw + EventRecorder.count_dots raw)%nat
  ∧ (∀ i : nat,
       String.get i selector = Some EventRecorder.dot →
       ∃ j : nat, i = S j
         ∧ String.get j selector = Some EventRecorder.backslash)
  ∧ (EventRecorder.count_dots raw = 0%nat → selector = raw).
Proof.
  intros raw selector. subst selector.
  unfold EventRecorder.formatDataSelector. fold raw.
  split; [apply unescape_escape_dots|].
  split; [apply length_escape_dots|].
  split; [apply escape_dots_preceded | apply escape_dots_none].
Qed.

Lemma formatDataSelector_escapes_witness :
  let element := EventRecorder.mkElement [("data-test", "nav.home")] in
  EventRecorder.formatDataSelector element "data-test"
  = "[data-test=" +:+ EventRecorder.quote +:+ "nav\.home"
    +:+ EventRecorder.quote +:+ "]"
  ∧ EventRecorder.formatDataSelector (EventRecorder.mkElement [("id", "a")])
      "id"
    = "[id=" +:+ EventRecorder.quote +:+ "a" +:+ EventRecorder.quote
      +:+ "]".
Proof.
  intros element. split; [by vm_compute|].
  apply (formatDataSelector_escapes (EventRecorder.mkElement [("id", "a")])
           "id").
  by vm_compute.
Defined.

(** ** The tokens of the [dataAttribute] option *)

Lemma split_space_nonempty s : EventRecorder.split_space s ≠ [].
Proof.
  destruct s as [|c s]; [done|]. cbn [EventRecorder.split_space].
  destruct (Ascii.eqb c EventRecorder.space); [done|].
  by destruct (EventRecorder.split_space s).
Qed.

Lemma split_space_no_space s :
  Forall (λ t, EventRecorder.has_space t = false)
    (EventRecorder.split_space s).
Proof.
  induction s as [|c s IH]; [by repeat constructor|].
  cbn [EventRecorder.split_space].
  destruct (Ascii.eqb c EventRecorder.space) eqn:Hc; [by constructor|].
  destruct (EventRecorder.split_space s) as [|t ts];
    [repeat constructor; cbn; by rewrite Hc|].
  apply Forall_cons in IH as [Ht Hts]. constructor; [|done].
  cbn. by rewrite Hc, Ht.
Qed.

Lemma split_space_token t :
  EventRecorder.has_space t = false → EventRecorder.split_space t = [t].
Proof.
  induction t as [|c t IH]; [done|]. cbn.
  intros [Hc Ht]%orb_false_elim. by rewrite Hc, (IH Ht).
Qed.

Lemma split_space_join t (rest : string) :
  EventRecorder.has_space t = false →
  EventRecorder.split_space (t +:+ String EventRecorder.space rest)
  = t :: EventRecorder.split_space rest.
Proof.
  induction t as [|c t IH]; [done|].
  intros [Hc Ht]%orb_false_elim. rewrite append_cons.
  cbn [EventRecorder.split_space]. by rewrite Hc, (IH Ht).
Qed.

(** X14. The tokens of the [dataAttribute] option: splitting at spaces
    and dropping the empty pieces gives tokens that are not empty and
    hold no space; the tokens of names joined by single spaces are those
    names; a falsy option leaves the attribute list unset, and a truthy
    value that is not a string throws. *)
Theorem dataAttribute_tokens :
  (∀ s, Forall (λ t, t ≠ EmptyString ∧ EventRecorder.has_space t = false)
          (EventRecorder.tokens s))
  ∧ (∀ ts,
       Forall (λ t, t ≠ EmptyString ∧ EventRecorder.has_space t = false) ts →
       EventRecorder.tokens (EventRecorder.join_space ts) = ts)
  ∧ (∀ v, truthy v = false → EventRecorder.dataAttributes_of v = Ok None)
  ∧ (∀ s, s ≠ EmptyString →
       EventRecorder.dataAttributes_of (JStr s)
       = Ok (Some (EventRecorder.tokens s)))
  ∧ (∀ v, truthy v = true → (∀ s, v ≠ JStr s) →
       EventRecorder.dataAttributes_of v = Throw TypeError).
Proof.
  split; [|split; [|split; [|split]]].
  - intros s. unfold EventRecorder.tokens. apply Forall_forall.
    intros t [Hne Hin]%list_elem_of_filter. split; [done|].
    pose proof (split_space_no_space s) as Hall.
    rewrite Forall_forall in Hall. by apply Hall.
  - unfold EventRecorder.tokens.
    induction ts as [|t ts IH]; intros Hall; [done|].
    apply Forall_cons in Hall as [[Hne Hsp] Hall].
    destruct ts as [|t2 ts].
    + cbn [EventRecorder.join_space]. rewrite (split_space_token t Hsp).
      by rewrite filter_cons_True.
    + change (EventRecorder.join_space (t :: t2 :: ts))
        with (t +:+ String EventRecorder.space
                      (EventRecorder.join_space (t2 :: ts))).
      rewrite (split_space_join t _ Hsp), filter_cons_True by done.
      by rewrite (IH Hall).
  - intros v Hv. unfold EventRecorder.dataAttributes_of. by rewrite Hv.
  - intros s Hs. unfold EventRecorder.dataAttributes_of. cbn.
    by rewrite (proj2 (String.eqb_neq s "") Hs).
  - intros v Hv Hstr. unfold EventRecorder.dataAttributes_of. rewrite Hv.
    destruct v; try done. by destruct (Hstr s).
Qed.

Lemma dataAttribute_tokens_witness :
  EventRecorder.tokens (EventRecorder.join_space ["data-test"; "data-cy"])
  = ["data-test"; "data-cy"]
  ∧ EventRecorder.dataAttributes_of (JStr "  data-test   data-cy ")
    = Ok (Some ["data-test"; "data-cy"])
  ∧ EventRecorder.dataAttributes_of (JStr "") = Ok None
  ∧ EventRecorder.dataAttributes_of (JNum 7) = Throw TypeError.
Proof.
  destruct dataAttribute_tokens as (_ & Hjoin & Hfalsy & Hstr & Hthrow).
  split; [|split; [|split]].
  - apply Hjoin. repeat constructor; done.
  - rewrite Hstr by done. by vm_compute.
  - by apply Hfalsy.
  - apply Hthrow; [done | discriminate].
Defined.

(** ** The search of the custom attribute *)

Lemma first_match_Some {Pattern} (test : Pattern → string → bool) p names n :
  EventRecorder.first_match test p names = Some n ↔
  ∃ ns1 ns2, names = ns1 ++ n :: ns2 ∧ test p n = true
             ∧ ∀ n', n' ∈ ns1 → test p n' = false.
Proof.
  induction names as [|n0 names IH]; cbn [EventRecorder.first_match].
  - split; [done|]. intros (ns1 & ns2 & H & _). by destruct ns1.
  - destruct (test p n0) eqn:Hn0.
    + split.
      * intros [= ->]. exists [], names. repeat split; [done|].
        by intros n' ?%elem_of_nil.
      * intros (ns1 & ns2 & Hnames & Ht & Hpre).
        destruct ns1 as [|n1 ns1]; [by injection Hnames as -> _|].
        injection Hnames as -> _.
        rewrite Hpre in Hn0; [done | apply elem_of_cons; by left].
    + rewrite IH. split.
      * intros (ns1 & ns2 & -> & Ht & Hpre). exists (n0 :: ns1), ns2.
        repeat split; [done|]. intros n' [-> | ?]%elem_of_cons; auto.
      * intros (ns1 & ns2 & Hnames & Ht & Hpre).
        destruct ns1 as [|n1 ns1].
        -- injection Hnames as -> _. congruence.
        -- injection Hnames as -> ->. exists ns1, ns2.
           repeat split; [done|]. intros n' Hn'. apply Hpre.
           apply elem_of_cons. by right.
Qed.

Lemma first_match_None {Pattern} (test : Pattern → string → bool) p names :
  EventRecorder.first_match test p names = None ↔
  ∀ n, n ∈ names → test p n = false.
Proof.
  induction names as [|n0 names IH]; cbn [EventRecorder.first_match].
  - split; [|done]. by intros _ n ?%elem_of_nil.
  - destruct (test p n0) eqn:Hn0.
    + split; [done|]. intros H. rewrite H in Hn0; [done|].
      apply elem_of_cons. by left.
    + rewrite IH. split.
      * intros H n [-> | ?]%elem_of_cons; auto.
      * intros H n Hn. apply H. apply elem_of_cons. by right.
Qed.

Lemma first_match_eqb (p : string) (names : list string) :
  EventRecorder.first_match String.eqb p names
  = if decide (p ∈ names) then Some p else None.
Proof.
  induction names as [|n names IH]; cbn [EventRecorder.first_match].
  - rewrite decide_False; [done | by intros ?%elem_of_nil].
  - destruct (String.eqb_spec p n) as [->|Hne].
    + rewrite decide_True; [done | apply elem_of_cons; by left].
    + rewrite IH. destruct (decide (p ∈ names)) as [Hin|Hin].
      * rewrite decide_True; [done | apply elem_of_cons; by right].
      * rewrite decide_False; [done|].
        by intros [? | ?]%elem_of_cons.
Qed.

(** X15. The order of the patterns decides the custom attribute: the
    search returns the first attribute of the target, in attribute order,
    that the first pattern matching any attribute matches; it returns
    nothing exactly when no pattern matches any attribute; and with plain
    names for patterns it returns the first name of the list that the
    target carries. *)
Theorem custom_attribute_priority {Pattern : Type}
    (test : Pattern → string → bool) (patterns : list Pattern)
    (names : list string) :
  (∀ n, EventRecorder.custom_attribute test patterns names = Some n ↔
        ∃ ps1 p ps2 ns1 ns2,
          patterns = ps1 ++ p :: ps2 ∧ names = ns1 ++ n :: ns2
          ∧ test p n = true
          ∧ (∀ n', n' ∈ ns1 → test p n' = false)
          ∧ (∀ q n', q ∈ ps1 → n' ∈ names → test q n' = false))
  ∧ (EventRecorder.custom_attribute test patterns names = None ↔
     ∀ p n, p ∈ patterns → n ∈ names → test p n = false)
  ∧ (∀ ps : list string,
       EventRecorder.custom_attribute String.eqb ps names
       = head (filter (λ p, p ∈ names) ps)).
Proof.
  split; [|split].
  - intros n. induction patterns as [|p0 ps IH];
      cbn [EventRecorder.custom_attribute].
    + split; [done|]. intros (ps1 & p & ps2 & _ & _ & H & _).
      by destruct ps1.
    + destruct (EventRecorder.first_match test p0 names) as [n0|] eqn:Hfm.
      * split.
        -- intros [= ->]. apply first_match_Some in Hfm
             as (ns1 & ns2 & Hn & Ht & Hpre).
           exists [], p0, ps, ns1, ns2. repeat split; try done.
           by intros q n' ?%elem_of_nil.
        -- intros (ps1 & p & ps2 & ns1 & ns2 & Hps & Hn & Ht & Hpre & Hbefore).
           destruct ps1 as [|q ps1].
           ++ injection Hps as -> ->.
              assert (EventRecorder.first_match test p names = Some n) as Hn'.
              { apply first_match_Some. by exists ns1, ns2. }
              congruence.
           ++ injection Hps as -> ->.
              pose proof (proj1 (first_match_Some _ _ _ _) Hfm)
                as (ms1 & ms2 & Hm & Htm & _).
              rewrite Hbefore in Htm; [done | apply elem_of_cons; by left|].
              rewrite Hm. apply elem_of_app. right. apply elem_of_cons.
              by left.
      * rewrite IH. pose proof (proj1 (first_match_None _ _ _) Hfm) as Hno.
        split.
        -- intros (ps1 & p & ps2 & ns1 & ns2 & -> & Hn & Ht & Hpre & Hbefore).
           exists (p0 :: ps1), p, ps2, ns1, ns2. repeat split; try done.
           intros q n' [-> | Hq]%elem_of_cons Hn'; auto.
        -- intros (ps1 & p & ps2 & ns1 & ns2 & Hps & Hn & Ht & Hpre & Hbefore).
           destruct ps1 as [|q ps1].
           ++ injection Hps as -> ->. rewrite Hno in Ht; [done|].
              rewrite Hn. apply elem_of_app. right. apply elem_of_cons.
              by left.
           ++ injection Hps as -> ->.
              exists ps1, p, ps2, ns1, ns2. repeat split; try done.
              intros q' n' Hq'. apply Hbefore. apply elem_of_cons. by right.
  - induction patterns as [|p0 ps IH]; cbn [EventRecorder.custom_attribute].
    + split; [|done]. by intros _ p n ?%elem_of_nil.
    + destruct (EventRecorder.first_match test p0 names) as [n0|] eqn:Hfm.
      * split; [done|]. intros Hall.
        apply first_match_Some in Hfm as (ns1 & ns2 & Hn & Ht & _).
        rewrite Hall in Ht; [done | apply elem_of_cons; by left|].
        rewrite Hn. apply elem_of_app. right. apply elem_of_cons. by left.
      * rewrite IH. pose proof (proj1 (first_match_None _ _ _) Hfm) as Hno.
        split.
        -- intros Hall p n [-> | Hp]%elem_of_cons Hn; auto.
        -- intros Hall p n Hp. apply Hall. apply elem_of_cons. by right.
  - intros ps. induction ps as [|p ps IH]; [done|].
    cbn [EventRecorder.custom_attribute].
    rewrite first_match_eqb, filter_cons.
    destruct (decide (p ∈ names)); [done | exact IH].
Qed.

Lemma custom_attribute_priority_witness :
  EventRecorder.custom_attribute String.eqb ["data-test"; "data-cy"]
    ["class"; "data-cy"; "data-test"]
  = Some "data-test".
Proof.
  rewrite (proj2 (proj2 (custom_attribute_priority String.eqb []
                           ["class"; "data-cy"; "data-test"]))).
  by vm_compute.
Defined.
